(** * Forex Alpha Signals: the signal evaluator and the series fetcher

    A shallow embedding of [forex_alpha_signals_unified_render.py]:
    [send_telegram_message], [obter_dados] and [analisar_ativo].

    - Prices are binary64 floats, as in Python and NumPy: the kernel's
      primitive floats, with IEEE 754 round-to-nearest-even arithmetic.
    - A pandas [DataFrame] is a row count with named columns of floats.  It
      is a mutable object: the frames live in a store, the program passes
      references to them, and [df[...] = ...] and [dropna(inplace=True)]
      update the store.
    - Logging, [print] and the simulated Telegram message are recorded as an
      output trace.
    - Python exceptions are an explicit error result; [try]/[except] is
      [try_except].
    - The [ta] indicator classes and [yfinance.download] are not code of
      this repository: they are the interfaces [TaLib] and [YFinance].
      Module [TaRef] gives a reference implementation of the first, used to
      run the evaluator on concrete series. *)

From Stdlib Require Import ZArith List String Floats QArith Lqa Lia.
From stdpp Require Import base gmap strings list pretty.

Open Scope string_scope.
Open Scope list_scope.

(* Decimal literals such as 0.003 stand for the nearest binary64 value, as
   they do in Python. *)
Set Warnings "-inexact-float".

(** ** Floats *)

(** [float.__format__] with the format [.4f]: the exact binary value,
    rounded half-even to four decimals. *)
Definition round_half_even (num den : Z) : Z :=
  let q := (num / den)%Z in
  let r := (num mod den)%Z in
  match (2 * r ?= den)%Z with
  | Lt => q
  | Gt => (q + 1)%Z
  | Eq => if Z.even q then q else (q + 1)%Z
  end.

Definition digit (n : Z) : string := pretty (Z.to_N (n mod 10)).

Definition format_4f (x : float) : string :=
  match Prim2SF x with
  | S754_nan => "nan"
  | S754_infinity s => if s then "-inf" else "inf"
  | S754_zero s => if s then "-0.0000" else "0.0000"
  | S754_finite s m e =>
      let n := if (0 <=? e)%Z
               then (Z.pos m * 2 ^ e * 10000)%Z
               else round_half_even (Z.pos m * 10000) (2 ^ (- e)) in
      (if s then "-" else "") +:+ pretty (Z.to_N (n / 10000)) +:+ "."
        +:+ digit (n / 1000) +:+ digit (n / 100) +:+ digit (n / 10) +:+ digit n
  end.

(** The arithmetic the price levels use, so that the same formulas can be
    read over binary64 and over exact rationals. *)
Class Arith (F : Type) := {
  one : F;
  add : F -> F -> F;
  sub : F -> F -> F;
  mul : F -> F -> F
}.

#[global] Instance float_arith : Arith float :=
  {| one := 1%float; add := PrimFloat.add; sub := PrimFloat.sub; mul := PrimFloat.mul |}.

#[global] Instance Q_arith : Arith Q :=
  {| one := 1%Q; add := Qplus; sub := Qminus; mul := Qmult |}.

(** ** Exceptions and results *)

Inductive exn :=
  | KeyError (key : string)
  | IndexError (msg : string)
  | Exception (msg : string).

Definition exn_str (e : exn) : string :=
  match e with
  | KeyError k => "'" +:+ k +:+ "'"
  | IndexError m => m
  | Exception m => m
  end.

Inductive result (A : Type) :=
  | Ret (a : A)
  | Raise (e : exn).
Arguments Ret {A} a.
Arguments Raise {A} e.

(** ** pandas: Series and DataFrame *)

Abbreviation Series := (list float).

Record DataFrame := mkDF {
  nrows : nat;
  columns : gmap string (list float)
}.

#[global] Instance DataFrame_inhabited : Inhabited DataFrame := populate (mkDF 0 ∅).

(** A row, as [df.iloc[i]] gives it. *)
Abbreviation Row := (gmap string float).

(** [len(df)] *)
Definition len (df : DataFrame) : nat := nrows df.

(** [df[key]] *)
Definition getitem (df : DataFrame) (key : string) : result Series :=
  match columns df !! key with
  | Some c => Ret c
  | None => Raise (KeyError key)
  end.

(** Assigning a Series to a column aligns it on the frame's index: labels
    the Series lacks become NaN and labels the frame lacks are dropped.  The
    indicator series carry the index of the close column they were computed
    from, so the alignment is by position. *)
Definition reindex (n : nat) (s : Series) : Series :=
  take n (s ++ replicate n nan).

(** [df[key] = s] *)
Definition setitem (df : DataFrame) (key : string) (s : Series) : DataFrame :=
  mkDF (nrows df) (<[key := reindex (nrows df) s]> (columns df)).

(** A cell holds a value: it is there and is not NaN. *)
Definition notna (c : list float) (i : nat) : bool :=
  match c !! i with
  | Some x => negb (PrimFloat.is_nan x)
  | None => false
  end.

Definition row_complete (df : DataFrame) (i : nat) : bool :=
  bool_decide (map_Forall (fun _ c => notna c i = true) (columns df)).

Definition select (keep : list nat) (c : list float) : list float :=
  omap (fun i => c !! i) keep.

(** The positions [dropna] keeps. *)
Definition kept df : list nat := List.filter (row_complete df) (seq 0 (nrows df)).

(** [df.dropna()]: the rows without any missing value. *)
Definition dropna (df : DataFrame) : DataFrame :=
  mkDF (length (kept df)) (select (kept df) <$> columns df).

(** [df.empty]: one of the axes has length 0. *)
Definition empty (df : DataFrame) : bool :=
  Nat.eqb (nrows df) 0 || Nat.eqb (size (columns df)) 0.

(** [df.iloc[-1]] *)
Definition iloc_last (df : DataFrame) : result Row :=
  match nrows df with
  | O => Raise (IndexError "single positional indexer is out-of-bounds")
  | S n => Ret (omap (fun c : list float => c !! n) (columns df))
  end.

(** [row[key]] *)
Definition row_get (r : Row) (key : string) : result float :=
  match r !! key with
  | Some x => Ret x
  | None => Raise (KeyError key)
  end.

(** ** The store, the output trace and the monad of the program *)

Definition loc := positive.

Inductive level := INFO | WARNING | ERROR.

Inductive event :=
  | Log (lvl : level) (msg : string)
  | Stdout (msg : string).

Record World := mkWorld {
  heap : gmap loc DataFrame;
  output : list event
}.

Definition M (A : Type) : Type := World -> result A * World.

Definition ret {A} (a : A) : M A := fun w => (Ret a, w).

Definition bind {A B} (m : M A) (k : A -> M B) : M B :=
  fun w =>
    match m w with
    | (Ret a, w') => k a w'
    | (Raise e, w') => (Raise e, w')
    end.

Definition raise {A} (e : exn) : M A := fun w => (Raise e, w).

(** [try: m  except Exception as e: h e] *)
Definition try_except {A} (m : M A) (h : exn -> M A) : M A :=
  fun w =>
    match m w with
    | (Ret a, w') => (Ret a, w')
    | (Raise e, w') => h e w'
    end.

(** A pure computation that may raise. *)
Definition lift {A} (r : result A) : M A := fun w => (r, w).

#[global] Instance M_ret : MRet M := @ret.
#[global] Instance M_bind : MBind M := fun A B k m => bind m k.

(** The world with more output, and with another value of the frame at [l]. *)
Definition add_output (evs : list event) (w : World) : World :=
  mkWorld (heap w) (output w ++ evs).

Definition set_frame (l : loc) (d : DataFrame) (w : World) : World :=
  mkWorld (<[l := d]> (heap w)) (output w).

Definition emit (ev : event) : M unit :=
  fun w => (Ret tt, add_output [ev] w).

Definition logger_info (msg : string) : M unit := emit (Log INFO msg).
Definition logger_warning (msg : string) : M unit := emit (Log WARNING msg).
Definition logger_error (msg : string) : M unit := emit (Log ERROR msg).
Definition print (msg : string) : M unit := emit (Stdout msg).

(** A reference is always live in Python; the default of [!!!] is not
    reached through a live reference. *)
Definition deref (w : World) (l : loc) : DataFrame := heap w !!! l.

Definition read {A} (l : loc) (f : DataFrame -> A) : M A :=
  fun w => (Ret (f (deref w l)), w).

Definition update (l : loc) (f : DataFrame -> DataFrame) : M unit :=
  fun w => (Ret tt, set_frame l (f (deref w l)) w).

Definition df_len (l : loc) : M nat := read l len.
Definition df_getitem (l : loc) (key : string) : M Series :=
  bind (read l (fun df => getitem df key)) lift.
Definition df_setitem (l : loc) (key : string) (s : Series) : M unit :=
  update l (fun df => setitem df key s).
(** [df.dropna(inplace=True)] *)
Definition df_dropna_inplace (l : loc) : M unit := update l dropna.
Definition df_empty (l : loc) : M bool := read l empty.
Definition df_iloc_last (l : loc) : M Row :=
  bind (read l iloc_last) lift.

(** A frame that did not exist before: the object [yfinance] hands back. *)
Definition alloc (d : DataFrame) : M loc :=
  fun w =>
    let l := fresh (dom (heap w)) in
    (Ret l, set_frame l d w).

(** ** The libraries the program calls *)

(** The indicator classes of [ta], as [analisar_ativo] uses them. *)
Class TaLib := {
  (** [EMAIndicator(close, window=w).ema_indicator()] *)
  ema_indicator : Series -> nat -> result Series;
  (** [MACD(close).macd()] *)
  macd : Series -> result Series;
  (** [RSIIndicator(close).rsi()] *)
  rsi : Series -> result Series;
  (** [BollingerBands(close, window=w, window_dev=d)], with its
      [bollinger_hband()] and [bollinger_lband()] *)
  bollinger_bands : Series -> nat -> nat -> result (Series * Series)
}.

(** [yf.download(ticker, period=p, interval=i)] *)
Class YFinance := {
  download : string -> string -> string -> result DataFrame
}.

(** [MACD(close)] keeps the defaults of [ta]: a 26-period slow average,
    which has no value on the first 25 bars. *)
Definition macd_warmup (ta : TaLib) : Prop :=
  forall close s i x,
    macd close = Ret s -> i < 25 -> s !! i = Some x -> PrimFloat.is_nan x = true.

(** ** Signals *)

Inductive Sinal := Neutro | Compra | Venda.

Definition sinal_str (s : Sinal) : string :=
  match s with
  | Neutro => "Neutro"
  | Compra => "Compra"
  | Venda => "Venda"
  end.

#[global] Instance Sinal_eq_dec : EqDecision Sinal.
Proof. solve_decision. Defined.

(** The dictionary [analisar_ativo] returns. *)
Record Signal := mkSignal {
  ativo : string;
  sinal : Sinal;
  preco_entrada : float;
  stop_loss : float;
  take_profit : float;
  mensagem : string
}.

(** The two price levels of lines 98 and 99. *)
Definition stop_loss_level {F} `{Arith F} (s : Sinal) (close stop_dev : F) : F :=
  match s with
  | Compra => mul close (sub one stop_dev)
  | _ => mul close (add one stop_dev)
  end.

Definition take_profit_level {F} `{Arith F} (s : Sinal) (close stop_dev take_dev : F) : F :=
  match s with
  | Compra => mul close (add one take_dev)
  | _ => mul close (sub one stop_dev)
  end.

(** ** The program *)

Definition send_telegram_message (message : string) : M unit :=
  logger_info ("Enviando mensagem para Telegram: " +:+ message);;
  print ("Mensagem para Telegram (simulado): " +:+ message).

(** The history asked for, line 52. *)
Definition periodo (tf : string) : string :=
  if bool_decide (tf ∈ ["15m"; "30m"]) then "60d" else "2y".

Section Fetcher.
Context {yf : YFinance}.

Definition obter_dados (ticker tf : string) : M (option loc) :=
  logger_info ("Obtendo dados para " +:+ ticker +:+ " com timeframe " +:+ tf);;
  try_except
    (d ← lift (download ticker (periodo tf) tf);
     data ← alloc d;
     vazio ← df_empty data;
     if vazio : bool then
       logger_warning ("Nenhum dado retornado para " +:+ ticker
                        +:+ " com timeframe " +:+ tf);;
       mret None
     else
       df_dropna_inplace data;;
       mret (Some data))
    (fun e =>
       logger_error ("Erro ao obter dados para " +:+ ticker +:+ ": " +:+ exn_str e);;
       mret None).
End Fetcher.

Section Evaluator.
Context {ta : TaLib}.

(** Lines 70 to 76: the six indicator columns, set in the caller's
    frame. *)
Definition calcular_indicadores (df : loc) : M unit :=
  close ← df_getitem df "Close";
  s ← lift (ema_indicator close 9);
  df_setitem df "EMA9" s;;
  close ← df_getitem df "Close";
  s ← lift (ema_indicator close 21);
  df_setitem df "EMA21" s;;
  close ← df_getitem df "Close";
  s ← lift (macd close);
  df_setitem df "MACD" s;;
  close ← df_getitem df "Close";
  s ← lift (rsi close);
  df_setitem df "RSI" s;;
  close ← df_getitem df "Close";
  bollinger ← lift (bollinger_bands close 20 2);
  df_setitem df "BB_High" (fst bollinger);;
  df_setitem df "BB_Low" (snd bollinger).

(** Lines 85 to 89, with the short-circuit of [and]. *)
Definition decidir (last_row : Row) : M Sinal :=
  close ← lift (row_get last_row "Close");
  ema9 ← lift (row_get last_row "EMA9");
  compra ← (if PrimFloat.ltb ema9 close
            then r ← lift (row_get last_row "RSI"); mret (PrimFloat.ltb r 30)
            else mret false);
  if compra : bool then mret Compra
  else
    close ← lift (row_get last_row "Close");
    ema9 ← lift (row_get last_row "EMA9");
    venda ← (if PrimFloat.ltb close ema9
             then r ← lift (row_get last_row "RSI"); mret (PrimFloat.ltb 70 r)
             else mret false);
    mret (if venda : bool then Venda else Neutro).

(** Lines 91 to 102. *)
Definition emitir (last_row : Row) (s : Sinal)
    (ativo_nome mercado_nome : string) (stop_dev take_dev : float)
    : M (option Signal) :=
  if decide (s ≠ Neutro) then
    close ← lift (row_get last_row "Close");
    let mensagem := "Sinal para " +:+ ativo_nome +:+ " (" +:+ mercado_nome +:+ "): "
                      +:+ sinal_str s +:+ " @ " +:+ format_4f close in
    send_telegram_message mensagem;;
    entrada ← lift (row_get last_row "Close");
    c1 ← lift (row_get last_row "Close");
    c2 ← lift (row_get last_row "Close");
    mret (Some {| ativo := ativo_nome;
                  sinal := s;
                  preco_entrada := entrada;
                  stop_loss := stop_loss_level s c1 stop_dev;
                  take_profit := take_profit_level s c2 stop_dev take_dev;
                  mensagem := mensagem |})
  else mret None.

(** The body of the [try], lines 69 to 102. *)
Definition analisar_try (df : loc) (ativo_nome mercado_nome : string)
    (stop_dev take_dev : float) : M (option Signal) :=
  calcular_indicadores df;;
  df_dropna_inplace df;;
  vazio ← df_empty df;
  if vazio : bool then
    logger_warning ("Dados insuficientes para " +:+ ativo_nome
                     +:+ " após cálculo de indicadores.");;
    mret None
  else
    last_row ← df_iloc_last df;
    s ← decidir last_row;
    emitir last_row s ativo_nome mercado_nome stop_dev take_dev.

Definition dados_insuficientes (ativo_nome : string) : M (option Signal) :=
  logger_warning ("Dados insuficientes para análise de " +:+ ativo_nome);;
  mret None.

Definition analisar_ativo (df : option loc) (ativo_nome mercado_nome : string)
    (stop_dev take_dev : float) : M (option Signal) :=
  logger_info ("Analisando " +:+ ativo_nome +:+ " do mercado " +:+ mercado_nome);;
  match df with
  | None => dados_insuficientes ativo_nome
  | Some l =>
      n ← df_len l;
      if Nat.ltb n 21 then dados_insuficientes ativo_nome
      else
        try_except
          (analisar_try l ativo_nome mercado_nome stop_dev take_dev)
          (fun e =>
             logger_error ("Erro ao analisar " +:+ ativo_nome +:+ ": " +:+ exn_str e);;
             mret None)
  end.
End Evaluator.

(** ** A reference implementation of the indicators

    The algorithms of [ta] 0.x on top of pandas, written out over binary64:
    [ewm(adjust=False).mean()] is the recurrence of pandas' window
    aggregation, with its [min_periods] warm-up; the rolling mean and
    deviation are computed window by window, where pandas updates running
    sums, so that on closes that are not integers the last bit of a band
    can differ.  The statements about the evaluator hold for any [TaLib];
    this module only runs it on concrete series. *)
Module TaRef.

Definition float_of_nat (n : nat) : float :=
  PrimFloat.of_uint63 (Uint63.of_Z (Z.of_nat n)).

Definition is_obs (x : float) : bool := PrimFloat.eqb x x.

Definition emit_if (nobs minp : nat) (x : float) : float :=
  if Nat.leb minp nobs then x else nan.

(** The window aggregations of pandas first turn infinite values into
    missing ones ([_prep_values]). *)
Definition prep_values (xs : list float) : list float :=
  (fun x => if PrimFloat.eqb (PrimFloat.abs x) infinity then nan else x) <$> xs.

(** One step of the loop of [ewm]: the running average, the weight of the
    past and the number of observations seen. *)
Definition ewm_step (alpha : float) (st : float * float * nat) (cur : float)
    : float * float * nat :=
  let '(weighted, old_wt, nobs) := st in
  let nobs := if is_obs cur then S nobs else nobs in
  if is_obs weighted then
    let old_wt := PrimFloat.mul old_wt (PrimFloat.sub 1 alpha) in
    if is_obs cur then
      let weighted :=
        if PrimFloat.eqb weighted cur then weighted
        else PrimFloat.div
               (PrimFloat.add (PrimFloat.mul old_wt weighted) (PrimFloat.mul alpha cur))
               (PrimFloat.add old_wt alpha) in
      (weighted, 1%float, nobs)
    else (weighted, old_wt, nobs)
  else if is_obs cur then (cur, old_wt, nobs)
  else (weighted, old_wt, nobs).

Fixpoint ewm_go (alpha : float) (minp : nat) (st : float * float * nat)
    (xs : list float) : list float :=
  match xs with
  | [] => []
  | cur :: xs =>
      let st := ewm_step alpha st cur in
      emit_if (snd st) minp (fst (fst st)) :: ewm_go alpha minp st xs
  end.

(** [Series.ewm(com=com, min_periods=minp, adjust=False).mean()] *)
Definition ewm_mean (com : float) (min_periods : nat) (xs : list float) : list float :=
  let alpha := PrimFloat.div 1 (PrimFloat.add 1 com) in
  let minp := Nat.max min_periods 1 in
  match prep_values xs with
  | [] => []
  | x0 :: xs =>
      let nobs := if is_obs x0 then 1 else 0 in
      emit_if nobs minp x0 :: ewm_go alpha minp (x0, 1%float, nobs) xs
  end.

(** [_ema(series, periods)]: [ewm(span=periods, min_periods=periods)] *)
Definition ema (periods : nat) (xs : list float) : list float :=
  ewm_mean (PrimFloat.div (PrimFloat.sub (float_of_nat periods) 1) 2) periods xs.

(** [MACD(close)]: the 12-period EMA minus the 26-period EMA. *)
Definition macd_line (xs : list float) : list float :=
  zip_with PrimFloat.sub (ema 12 xs) (ema 26 xs).

(** [Series.diff(1)] *)
Definition diff (xs : list float) : list float :=
  match xs with
  | [] => []
  | _ :: tl => nan :: zip_with PrimFloat.sub tl xs
  end.

(** [RSIIndicator(close)], window 14. *)
Definition rsi_line (xs : list float) : list float :=
  let window := 14 in
  let d := diff xs in
  let up := (fun x => if PrimFloat.ltb 0 x then x else 0%float) <$> d in
  let dn := (fun x => PrimFloat.opp (if PrimFloat.ltb x 0 then x else 0%float)) <$> d in
  let alpha := PrimFloat.div 1 (float_of_nat window) in
  let com := PrimFloat.div (PrimFloat.sub 1 alpha) alpha in
  let emaup := ewm_mean com window up in
  let emadn := ewm_mean com window dn in
  zip_with (fun u d =>
              if PrimFloat.eqb d 0 then 100%float
              else PrimFloat.sub 100
                     (PrimFloat.div 100 (PrimFloat.add 1 (PrimFloat.div u d))))
           emaup emadn.

Definition fsum (xs : list float) : float := fold_left PrimFloat.add xs 0%float.

(** The window that ends at position [i]. *)
Definition window_at (w : nat) (xs : list float) (i : nat) : list float :=
  List.filter is_obs (take (S i - (S i - w)) (drop (S i - w) xs)).

Definition rolling (w : nat) (f : list float -> float) (xs : list float) : list float :=
  let xs := prep_values xs in
  (fun i => let obs := window_at w xs i in
            if Nat.leb w (length obs) then f obs else nan) <$> seq 0 (length xs).

Definition mean (obs : list float) : float :=
  PrimFloat.div (fsum obs) (float_of_nat (length obs)).

(** [std(ddof=0)] *)
Definition pstd (obs : list float) : float :=
  let m := mean obs in
  PrimFloat.sqrt
    (PrimFloat.div (fsum ((fun x => PrimFloat.mul (PrimFloat.sub x m) (PrimFloat.sub x m)) <$> obs))
       (float_of_nat (length obs))).

(** [BollingerBands(close, window=w, window_dev=d)]: the two bands. *)
Definition bollinger (w d : nat) (xs : list float) : list float * list float :=
  let mavg := rolling w mean xs in
  let mstd := rolling w pstd xs in
  (zip_with (fun m s => PrimFloat.add m (PrimFloat.mul (float_of_nat d) s)) mavg mstd,
   zip_with (fun m s => PrimFloat.sub m (PrimFloat.mul (float_of_nat d) s)) mavg mstd).

Definition lib : TaLib :=
  {| ema_indicator close w := Ret (ema w close);
     macd close := Ret (macd_line close);
     rsi close := Ret (rsi_line close);
     bollinger_bands close w d := Ret (bollinger w d close) |}.

End TaRef.

(** ** The notions the statements use *)

(** The frame with the six indicator columns. *)
Definition with_indicators (df : DataFrame) (e9 e21 m r bh bl : Series) : DataFrame :=
  setitem (setitem (setitem (setitem (setitem (setitem df
    "EMA9" e9) "EMA21" e21) "MACD" m) "RSI" r) "BB_High" bh) "BB_Low" bl.

Definition indicator_columns : list string :=
  ["EMA9"; "EMA21"; "MACD"; "RSI"; "BB_High"; "BB_Low"].

(** The decision of lines 85 to 89 on the three values it reads. *)
Definition direcao (close ema9 rsi : float) : Sinal :=
  if PrimFloat.ltb ema9 close && PrimFloat.ltb rsi 30 then Compra
  else if PrimFloat.ltb close ema9 && PrimFloat.ltb 70 rsi then Venda
  else Neutro.

Definition mensagem_de (s : Sinal) (ativo_nome mercado_nome : string) (close : float)
    : string :=
  "Sinal para " +:+ ativo_nome +:+ " (" +:+ mercado_nome +:+ "): "
    +:+ sinal_str s +:+ " @ " +:+ format_4f close.

(** The dictionary of lines 94 to 101 for a direction and a close. *)
Definition sinal_de (s : Sinal) (ativo_nome mercado_nome : string)
    (close stop_dev take_dev : float) : Signal :=
  {| ativo := ativo_nome;
     sinal := s;
     preco_entrada := close;
     stop_loss := stop_loss_level s close stop_dev;
     take_profit := take_profit_level s close stop_dev take_dev;
     mensagem := mensagem_de s ativo_nome mercado_nome close |}.

(** What the notifier writes. *)
Definition telegram (message : string) : list event :=
  [Log INFO ("Enviando mensagem para Telegram: " +:+ message);
   Stdout ("Mensagem para Telegram (simulado): " +:+ message)].

(** The indicator computation does not raise on [df] and leaves [df']. *)
Definition computed {ta : TaLib} (df df' : DataFrame) : Prop :=
  exists close e9 e21 m r bh bl,
    getitem df "Close" = Ret close /\
    ema_indicator close 9 = Ret e9 /\
    ema_indicator close 21 = Ret e21 /\
    macd close = Ret m /\
    rsi close = Ret r /\
    bollinger_bands close 20 2 = Ret (bh, bl) /\
    df' = with_indicators df e9 e21 m r bh bl.

(** The lines of the log. *)
Definition msg_analisando (a m : string) : event :=
  Log INFO ("Analisando " +:+ a +:+ " do mercado " +:+ m).
Definition msg_insuficientes (a : string) : event :=
  Log WARNING ("Dados insuficientes para análise de " +:+ a).
Definition msg_sem_linhas (a : string) : event :=
  Log WARNING ("Dados insuficientes para " +:+ a +:+ " após cálculo de indicadores.").
Definition msg_erro (a : string) (e : exn) : event :=
  Log ERROR ("Erro ao analisar " +:+ a +:+ ": " +:+ exn_str e).

(** ** Concrete series *)

(** Thirty bars: twenty-nine closes rising by one from 100, then a fall to
    123.75.  The last close is under its 9-period average and the RSI is
    still above 70. *)
Definition serie_venda : Series :=
  ((fun i => PrimFloat.add 100 (TaRef.float_of_nat i)) <$> seq 0 29) ++ [123.75%float].

Definition quadro_venda : DataFrame := mkDF 30 {[ "Close" := serie_venda ]}.

Definition mundo_venda : World := mkWorld {[ 1%positive := quadro_venda ]} [].

Definition quadro_venda_indicadores : DataFrame :=
  with_indicators quadro_venda
    (TaRef.ema 9 serie_venda) (TaRef.ema 21 serie_venda)
    (TaRef.macd_line serie_venda) (TaRef.rsi_line serie_venda)
    (fst (TaRef.bollinger 20 2 serie_venda)) (snd (TaRef.bollinger 20 2 serie_venda)).

Definition sinal_venda : Signal :=
  sinal_de Venda "EURUSD=X" "Forex" 123.75 0.003 0.003.

Definition mundo_copias : World :=
  mkWorld {[ 1%positive := quadro_venda; 2%positive := quadro_venda ]} [].

(** Twenty-two bars and no close column. *)
Definition quadro_sem_close : DataFrame :=
  mkDF 22 {[ "Open" := replicate 22 1%float ]}.

(** Twenty-one flat bars: the MACD line has no value on any of them. *)
Definition quadro_21 : DataFrame := mkDF 21 {[ "Close" := replicate 21 1%float ]}.

Definition quadro_21_indicadores : DataFrame :=
  let close := replicate 21 1%float in
  with_indicators quadro_21
    (TaRef.ema 9 close) (TaRef.ema 21 close) (TaRef.macd_line close) (TaRef.rsi_line close)
    (fst (TaRef.bollinger 20 2 close)) (snd (TaRef.bollinger 20 2 close)).

(** A download that fails, and one that gives a frame without rows. *)
Definition yf_falha : YFinance :=
  {| download _ _ _ := Raise (Exception "No data found, symbol may be delisted") |}.

Definition yf_vazio : YFinance :=
  {| download _ _ _ := Ret (mkDF 0 {[ "Close" := [] ]}) |}.

(** ** The cycle *)

(** The catalog of line 34, in the order of the dictionary. *)
Definition ativos : list (string * list string) :=
  [("Câmbio (Forex)", ["EURUSD=X"; "GBPUSD=X"; "USDJPY=X"; "AUDUSD=X"; "USDCAD=X"]);
   ("Criptomoedas", ["BTC-USD"; "ETH-USD"; "SOL-USD"; "BNB-USD"]);
   ("Ações", ["AAPL"; "MSFT"; "AMZN"; "PETR4.SA"; "VALE3.SA"]);
   ("Commodities", ["GC=F"; "CL=F"; "SI=F"])].

(** [time.sleep]: the wait changes neither the store nor the output, and
    time is no part of the world. *)
Definition sleep (seconds : nat) : M unit := mret tt.

(** A [for] loop over a list. *)
Fixpoint for_each {A} (xs : list A) (body : A -> M unit) : M unit :=
  match xs with
  | [] => mret tt
  | x :: xs => body x;; for_each xs body
  end.

Section Cycle.
Context {yf : YFinance} {ta : TaLib}.

(** The three settings read from the environment when the module is
    loaded, and [str] of the dictionary of a signal, whose text for a NumPy
    float depends on the NumPy at hand. *)
Variable DEFAULT_TIMEFRAME : string.
Variables DEFAULT_STOP_DEV DEFAULT_TAKE_DEV : float.
Variable str_dict : Signal -> string.

(** Lines 116 to 121: one instrument of the cycle. *)
Definition processar_ativo (timeframe : string) (stop_dev take_dev : float)
    (mercado ativo_ticker : string) : M unit :=
  dados_ativo ← obter_dados ativo_ticker timeframe;
  match dados_ativo with
  | Some _ =>
      resultado_analise ← analisar_ativo dados_ativo ativo_ticker mercado stop_dev take_dev;
      match resultado_analise with
      | Some r => logger_info ("Sinal gerado: " +:+ str_dict r)
      | None => mret tt
      end
  | None => mret tt
  end;;
  sleep 5.

Definition run_analysis : M unit :=
  logger_info "Iniciando ciclo de análise...";;
  let timeframe := DEFAULT_TIMEFRAME in
  let stop_dev := DEFAULT_STOP_DEV in
  let take_dev := DEFAULT_TAKE_DEV in
  for_each ativos (fun '(mercado, lista_ativos) =>
    logger_info ("Analisando mercado: " +:+ mercado);;
    for_each lista_ativos (processar_ativo timeframe stop_dev take_dev mercado));;
  logger_info "Ciclo de análise concluído.".
End Cycle.

(** ** Reading the output *)

Definition is_log (ev : event) : bool :=
  match ev with
  | Log _ _ => true
  | Stdout _ => false
  end.

(** The notifier was called: it is the only writer to the standard output. *)
Definition is_notification (ev : event) : bool := negb (is_log ev).

Fixpoint starts_with (p s : string) : bool :=
  match p with
  | EmptyString => true
  | String a p' =>
      match s with
      | EmptyString => false
      | String b s' => Ascii.eqb a b && starts_with p' s'
      end
  end.

(** A line of the log at level INFO that starts with [p]. *)
Definition is_info_with (p : string) (ev : event) : bool :=
  match ev with
  | Log INFO msg => starts_with p msg
  | _ => false
  end.

(** The line [obter_dados] opens with, and the line of the cycle for a
    signal. *)
Definition is_fetch_line : event -> bool := is_info_with "Obtendo dados para ".
Definition is_signal_line : event -> bool := is_info_with "Sinal gerado: ".

Definition fetch_line (tf ticker : string) : event :=
  Log INFO ("Obtendo dados para " +:+ ticker +:+ " com timeframe " +:+ tf).

(** A world is kept by another: every frame of the first is in the second
    as it was. *)
Definition frames_kept (w w' : World) : Prop :=
  forall l d, heap w !! l = Some d -> heap w' !! l = Some d.

(** A line of the log that neither opens a fetch nor reports a signal. *)
Definition is_plain_log (ev : event) : bool :=
  is_log ev && negb (is_fetch_line ev) && negb (is_signal_line ev).

(** What a stretch of the cycle does between two worlds: it only adds to the
    output, keeps the frames that were there, opens the fetches [fetched],
    in that order, and writes one signal line for each notification. *)
Definition cycle_step (w w' : World) (fetched : list event) : Prop :=
  exists evs,
    output w' = output w ++ evs /\
    frames_kept w w' /\
    List.filter is_fetch_line evs = fetched /\
    length (List.filter is_notification evs) = length (List.filter is_signal_line evs).

(** ** More concrete worlds *)

(** The indicators of [TaRef], with an RSI that fails. *)
Definition ta_falha_rsi : TaLib :=
  {| ema_indicator close w := Ret (TaRef.ema w close);
     macd close := Ret (TaRef.macd_line close);
     rsi close := Raise (Exception "unsupported operand");
     bollinger_bands close w d := Ret (TaRef.bollinger w d close) |}.

(** The thirty bars of [quadro_venda] and a last bar without a close. *)
Definition quadro_venda_nan : DataFrame :=
  mkDF 31 {[ "Close" := serie_venda ++ [nan] ]}.

(** A download that gives the thirty bars of [quadro_venda], and one whose
    two bars both miss a value. *)
Definition yf_venda : YFinance :=
  {| download _ _ _ := Ret quadro_venda |}.

Definition quadro_incompleto : DataFrame :=
  mkDF 2 {[ "Close" := [1%float; nan]; "Open" := [nan; 1%float] ]}.

Definition yf_incompleto : YFinance :=
  {| download _ _ _ := Ret quadro_incompleto |}.

(** * Frames: what [dropna] keeps *)

Section FrameFacts.
Implicit Types (df : DataFrame) (c s : list float) (k : string) (i j n : nat).

Lemma reindex_length n s : length (reindex n s) = n.
Proof.
  unfold reindex. rewrite length_take, length_app, length_replicate. lia.
Qed.

Lemma reindex_lookup n s i :
  i < n -> reindex n s !! i = Some (default nan (s !! i)).
Proof.
  intros Hi. unfold reindex. rewrite lookup_take_lt by done.
  destruct (s !! i) as [x|] eqn:E.
  - by rewrite (lookup_app_l_Some _ _ _ _ E).
  - apply lookup_ge_None in E. rewrite lookup_app_r by done.
    simpl. apply lookup_replicate_2. lia.
Qed.

Lemma notna_Some c i :
  notna c i = true <-> exists x, c !! i = Some x /\ PrimFloat.is_nan x = false.
Proof.
  unfold notna. destruct (c !! i) as [x|]; split.
  - intros H. exists x. split; [done|]. by apply negb_true_iff.
  - intros (y & [= <-] & H). by apply negb_true_iff.
  - done.
  - by intros (y & ? & _).
Qed.

Lemma row_complete_true df i :
  row_complete df i = true <->
  forall k c, columns df !! k = Some c -> notna c i = true.
Proof. unfold row_complete. by rewrite bool_decide_eq_true. Qed.

Lemma row_complete_false df i k c :
  columns df !! k = Some c -> notna c i = false -> row_complete df i = false.
Proof.
  intros Hk Hna. apply not_true_is_false. rewrite row_complete_true.
  intros H. specialize (H _ _ Hk). congruence.
Qed.

Lemma select_lookup (keep : list nat) c j :
  Forall (fun i => is_Some (c !! i)) keep ->
  select keep c !! j = keep !! j ≫= (fun i => c !! i).
Proof.
  unfold select. intros H. revert j.
  induction H as [|i keep [x Hx] _ IH]; intros j; [done|].
  simpl. rewrite Hx. destruct j as [|j]; simpl; [done|]. apply IH.
Qed.

Lemma select_length (keep : list nat) c :
  Forall (fun i => is_Some (c !! i)) keep -> length (select keep c) = length keep.
Proof.
  unfold select. induction 1 as [|i keep [x Hx] _ IH]; [done|].
  simpl. rewrite Hx. simpl. f_equal. exact IH.
Qed.

Lemma kept_complete df i : i ∈ kept df -> row_complete df i = true.
Proof.
  unfold kept. rewrite list_elem_of_In, filter_In. tauto.
Qed.

Lemma kept_present df k c :
  columns df !! k = Some c -> Forall (fun i => is_Some (c !! i)) (kept df).
Proof.
  intros Hk. apply Forall_forall. intros i Hi%kept_complete.
  rewrite row_complete_true in Hi. specialize (Hi _ _ Hk).
  apply notna_Some in Hi as (x & -> & _). eauto.
Qed.

Lemma dropna_nrows df : nrows (dropna df) = length (kept df).
Proof. reflexivity. Qed.

Lemma dropna_columns df k :
  columns (dropna df) !! k = select (kept df) <$> columns df !! k.
Proof. unfold dropna. simpl. by rewrite lookup_fmap. Qed.

Lemma dropna_dom df : dom (columns (dropna df)) = dom (columns df).
Proof. unfold dropna. simpl. apply dom_fmap_L. Qed.

Lemma dropna_column_length df k c :
  columns (dropna df) !! k = Some c -> length c = nrows (dropna df).
Proof.
  rewrite dropna_columns, dropna_nrows.
  destruct (columns df !! k) as [c0|] eqn:Hk; [|done].
  intros [= <-]. apply select_length. by eapply kept_present.
Qed.

(** After [dropna] no cell of the frame is missing. *)
Lemma dropna_cell df k c j :
  columns (dropna df) !! k = Some c -> j < nrows (dropna df) ->
  exists x, c !! j = Some x /\ PrimFloat.is_nan x = false.
Proof.
  rewrite dropna_columns, dropna_nrows.
  destruct (columns df !! k) as [c0|] eqn:Hk; [|done].
  intros [= <-] Hj. rewrite select_lookup by (by eapply kept_present).
  apply lookup_lt_is_Some_2 in Hj as [i Hi]. rewrite Hi. simpl.
  apply list_elem_of_lookup_2, kept_complete in Hi.
  rewrite row_complete_true in Hi. apply notna_Some. by eapply Hi.
Qed.

Lemma filter_length_le {A} (f : A -> bool) (l : list A) :
  length (List.filter f l) <= length l.
Proof. induction l as [|a l IH]; simpl; [lia|]. destruct (f a); simpl; lia. Qed.

Lemma filter_none {A} (f : A -> bool) (l : list A) :
  (forall a, a ∈ l -> f a = false) -> List.filter f l = [].
Proof.
  induction l as [|a l IH]; intros H; simpl; [done|].
  rewrite (H a) by left. apply IH. intros b Hb. apply H. by right.
Qed.

Lemma dropna_nrows_le df : nrows (dropna df) <= nrows df.
Proof.
  rewrite dropna_nrows. unfold kept.
  etransitivity; [apply filter_length_le|]. by rewrite length_seq.
Qed.

(** Rows that are missing a value at the start of the frame are gone. *)
Lemma dropna_nrows_warmup df n :
  (forall i, i < n -> i < nrows df -> row_complete df i = false) ->
  nrows (dropna df) <= nrows df - n.
Proof.
  intros H. rewrite dropna_nrows. unfold kept.
  set (m := Nat.min n (nrows df)).
  replace (nrows df) with (m + (nrows df - m)) at 1 by lia.
  rewrite seq_app, List.filter_app, length_app.
  rewrite filter_none.
  - simpl. etransitivity; [apply filter_length_le|]. rewrite length_seq. lia.
  - intros i Hi%list_elem_of_In%in_seq. apply H; lia.
Qed.

Lemma dropna_all_missing df :
  (forall i, i < nrows df -> row_complete df i = false) ->
  nrows (dropna df) = 0.
Proof.
  intros H. assert (nrows (dropna df) <= nrows df - nrows df) as Hle
    by (apply dropna_nrows_warmup; auto).
  lia.
Qed.

(** The last row of a frame after [dropna] has a value in every column. *)
Lemma iloc_last_dropna df :
  nrows (dropna df) <> 0 ->
  exists row, iloc_last (dropna df) = Ret row /\
    forall k, is_Some (columns df !! k) ->
      exists x, row !! k = Some x /\ PrimFloat.is_nan x = false.
Proof.
  intros Hn. unfold iloc_last.
  destruct (nrows (dropna df)) as [|n] eqn:En; [done|].
  eexists. split; [done|]. intros k [c0 Hk].
  rewrite lookup_omap.
  assert (columns (dropna df) !! k = Some (select (kept df) c0)) as Hc
    by (by rewrite dropna_columns, Hk).
  rewrite Hc. simpl. eapply dropna_cell; [done|lia].
Qed.

Lemma getitem_setitem_ne df k k' s :
  k <> k' -> getitem (setitem df k' s) k = getitem df k.
Proof. intros Hne. unfold getitem, setitem. simpl. by rewrite lookup_insert_ne. Qed.

Lemma setitem_nrows df k s : nrows (setitem df k s) = nrows df.
Proof. reflexivity. Qed.

Lemma setitem_lookup df k s :
  columns (setitem df k s) !! k = Some (reindex (nrows df) s).
Proof. unfold setitem. simpl. apply lookup_insert_eq. Qed.

Lemma setitem_lookup_ne df k k' s :
  k <> k' -> columns (setitem df k' s) !! k = columns df !! k.
Proof. intros. unfold setitem. simpl. by apply lookup_insert_ne. Qed.
End FrameFacts.

(** * Running the program *)

Arguments getitem : simpl never.
Arguments setitem : simpl never.
Arguments dropna : simpl never.
Arguments deref : simpl never.
Arguments empty : simpl never.
Arguments iloc_last : simpl never.
Arguments set_frame : simpl never.
Arguments add_output : simpl never.
Arguments format_4f : simpl never.
Arguments calcular_indicadores : simpl never.
Arguments decidir : simpl never.
Arguments emitir : simpl never.
Arguments analisar_try : simpl never.

Lemma deref_set_frame l d w : deref (set_frame l d w) l = d.
Proof. unfold deref, set_frame. simpl. apply lookup_total_insert_eq. Qed.

Lemma deref_set_frame_ne l l' d w : l <> l' -> deref (set_frame l d w) l' = deref w l'.
Proof. intros. unfold deref, set_frame. simpl. by apply lookup_total_insert_ne. Qed.

Lemma deref_add_output evs l w : deref (add_output evs w) l = deref w l.
Proof. reflexivity. Qed.

Lemma deref_lookup w l df : heap w !! l = Some df -> deref w l = df.
Proof. intros H. unfold deref. by rewrite lookup_total_alt, H. Qed.

Lemma set_frame_set_frame l d1 d2 w :
  set_frame l d2 (set_frame l d1 w) = set_frame l d2 w.
Proof. unfold set_frame. simpl. by rewrite insert_insert_eq. Qed.

Lemma set_frame_add_output l d evs w :
  set_frame l d (add_output evs w) = add_output evs (set_frame l d w).
Proof. reflexivity. Qed.

Lemma add_output_add_output e1 e2 w :
  add_output e2 (add_output e1 w) = add_output (e1 ++ e2) w.
Proof. unfold add_output. simpl. by rewrite app_assoc. Qed.

Lemma output_add_output evs w : output (add_output evs w) = output w ++ evs.
Proof. reflexivity. Qed.

Lemma output_set_frame l d w : output (set_frame l d w) = output w.
Proof. reflexivity. Qed.

Lemma heap_add_output evs w : heap (add_output evs w) = heap w.
Proof. reflexivity. Qed.

Create Rewrite HintDb world.
#[global] Hint Rewrite deref_set_frame deref_add_output set_frame_set_frame
  set_frame_add_output add_output_add_output : world.
#[global] Hint Rewrite getitem_setitem_ne using discriminate : world.

Ltac munfold :=
  unfold mbind, M_bind, mret, M_ret, bind, ret, lift, try_except, emit,
    logger_info, logger_warning, logger_error, print,
    df_len, df_getitem, df_setitem, df_dropna_inplace, df_empty, df_iloc_last,
    read, update in *.

(** One call of the library or of pandas that returned. *)
Ltac mstep H :=
  match type of H with
  | context [match ?r with Ret _ => _ | Raise _ => _ end] =>
      let E := fresh "E" in
      destruct r eqn:E; [|discriminate H]; simpl in H; autorewrite with world in H
  end.

Section Exec.
Context {ta : TaLib}.

Lemma calcular_indicadores_inv l w w1 :
  calcular_indicadores l w = (Ret tt, w1) ->
  exists df', computed (deref w l) df' /\ w1 = set_frame l df' w.
Proof.
  unfold calcular_indicadores. munfold. intros H. simpl in H.
  destruct (getitem (deref w l) "Close") as [close|] eqn:Hc; [|done].
  mstep H. rewrite Hc in H. mstep H. rewrite Hc in H. mstep H.
  rewrite Hc in H. mstep H. rewrite Hc in H. mstep H.
  injection H as <-. eexists. split; [|reflexivity].
  destruct a3 as [bh bl]. by exists close, a, a0, a1, a2, bh, bl.
Qed.

Lemma calcular_indicadores_ret l w df' :
  computed (deref w l) df' ->
  calcular_indicadores l w = (Ret tt, set_frame l df' w).
Proof.
  intros (close & e9 & e21 & m & r & bh & bl & Hc & H1 & H2 & H3 & H4 & H5 & ->).
  unfold calcular_indicadores. munfold. simpl.
  rewrite Hc, H1. simpl. autorewrite with world.
  rewrite Hc, H2. simpl. autorewrite with world.
  rewrite Hc, H3. simpl. autorewrite with world.
  rewrite Hc, H4. simpl. autorewrite with world.
  rewrite Hc, H5. simpl. autorewrite with world.
  reflexivity.
Qed.

(** The indicator computation writes nothing to the output. *)
Lemma calcular_indicadores_output l w r w1 :
  calcular_indicadores l w = (r, w1) -> output w1 = output w.
Proof.
  unfold calcular_indicadores. munfold. intros H. simpl in H.
  repeat match type of H with
  | context [match ?x with Ret _ => _ | Raise _ => _ end] =>
      destruct x; simpl in H
  end; by injection H as <- <-.
Qed.

Lemma computed_nrows df df' : computed df df' -> nrows df' = nrows df.
Proof. by intros (? & ? & ? & ? & ? & ? & ? & _ & _ & _ & _ & _ & _ & ->). Qed.

Lemma with_indicators_columns df e9 e21 m r bh bl k :
  is_Some (columns df !! k) \/ k ∈ indicator_columns ->
  is_Some (columns (with_indicators df e9 e21 m r bh bl) !! k).
Proof.
  unfold with_indicators, setitem, indicator_columns. simpl.
  rewrite !lookup_insert_is_Some'. intros [H|H]; [tauto|].
  repeat (apply elem_of_cons in H as [->|H]; [tauto|]).
  by apply elem_of_nil in H.
Qed.

Lemma computed_columns df df' k :
  computed df df' ->
  k = "Close" \/ k ∈ indicator_columns -> is_Some (columns df' !! k).
Proof.
  intros (close & ? & ? & ? & ? & ? & ? & Hc & _ & _ & _ & _ & _ & ->) Hk.
  apply with_indicators_columns. destruct Hk as [->|Hk]; [left|by right].
  unfold getitem in Hc. destruct (columns df !! "Close"); [eauto|done].
Qed.

Lemma decidir_spec row c e r w :
  row !! "Close" = Some c -> row !! "EMA9" = Some e -> row !! "RSI" = Some r ->
  decidir row w = (Ret (direcao c e r), w).
Proof.
  intros Hc He Hr. unfold decidir, direcao, row_get. munfold.
  rewrite Hc, He, Hr.
  destruct (PrimFloat.ltb e c), (PrimFloat.ltb r 30), (PrimFloat.ltb c e),
    (PrimFloat.ltb 70 r); reflexivity.
Qed.

Lemma emitir_spec row c s a m sd td w :
  row !! "Close" = Some c ->
  emitir row s a m sd td w =
    match s with
    | Neutro => (Ret None, w)
    | _ => (Ret (Some (sinal_de s a m c sd td)),
            add_output (telegram (mensagem_de s a m c)) w)
    end.
Proof.
  intros Hc. unfold emitir, send_telegram_message, row_get. munfold.
  destruct s; simpl; [done| |]; rewrite Hc; simpl;
    by autorewrite with world.
Qed.

Lemma computed_dropna_not_axis_empty df df' :
  computed df df' -> empty (dropna df') = Nat.eqb (nrows (dropna df')) 0.
Proof.
  intros Hc. unfold empty.
  assert (size (columns (dropna df')) <> 0) as Hs.
  { destruct (computed_columns df df' "EMA9" Hc) as [c Hk];
      [right; set_solver|].
    apply (map_size_ne_0_lookup_2 _ "EMA9").
    rewrite dropna_columns, Hk. by eexists. }
  apply Nat.eqb_neq in Hs. rewrite Hs. apply orb_false_r.
Qed.

(** The rows all dropped: the warning of line 80. *)
Lemma analisar_try_empty l w df' a m sd td :
  computed (deref w l) df' -> nrows (dropna df') = 0 ->
  analisar_try l a m sd td w =
    (Ret None, add_output [msg_sem_linhas a] (set_frame l (dropna df') w)).
Proof.
  intros Hc H0. unfold analisar_try. munfold.
  rewrite (calcular_indicadores_ret _ _ _ Hc). simpl. autorewrite with world.
  rewrite (computed_dropna_not_axis_empty _ _ Hc), H0. reflexivity.
Qed.

(** A row left: the decision is taken on the last one. *)
Lemma analisar_try_last l w df' a m sd td :
  computed (deref w l) df' -> nrows (dropna df') <> 0 ->
  exists row c e r,
    iloc_last (dropna df') = Ret row /\
    row !! "Close" = Some c /\ row !! "EMA9" = Some e /\ row !! "RSI" = Some r /\
    analisar_try l a m sd td w =
      match direcao c e r with
      | Neutro => (Ret None, set_frame l (dropna df') w)
      | _ => (Ret (Some (sinal_de (direcao c e r) a m c sd td)),
              add_output (telegram (mensagem_de (direcao c e r) a m c))
                (set_frame l (dropna df') w))
      end.
Proof.
  intros Hc Hn.
  destruct (iloc_last_dropna df' Hn) as (row & Hrow & Hcells).
  destruct (Hcells "Close") as (c & Hclose & _);
    [eapply computed_columns; [done|by left]|].
  destruct (Hcells "EMA9") as (e & Hema & _);
    [eapply computed_columns; [done|right; set_solver]|].
  destruct (Hcells "RSI") as (r & Hrsi & _);
    [eapply computed_columns; [done|right; set_solver]|].
  exists row, c, e, r. repeat (split; [done|]).
  unfold analisar_try. munfold.
  rewrite (calcular_indicadores_ret _ _ _ Hc). simpl. autorewrite with world.
  rewrite (computed_dropna_not_axis_empty _ _ Hc).
  apply Nat.eqb_neq in Hn. rewrite Hn. simpl. autorewrite with world.
  rewrite Hrow. simpl.
  rewrite (decidir_spec row c e r _ Hclose Hema Hrsi).
  by rewrite (emitir_spec row c _ a m sd td _ Hclose).
Qed.

Lemma analisar_ativo_None a m sd td w :
  analisar_ativo None a m sd td w =
    (Ret None, add_output [msg_analisando a m; msg_insuficientes a] w).
Proof.
  unfold analisar_ativo, dados_insuficientes. munfold. simpl.
  by autorewrite with world.
Qed.

Lemma analisar_ativo_short l a m sd td w :
  nrows (deref w l) < 21 ->
  analisar_ativo (Some l) a m sd td w =
    (Ret None, add_output [msg_analisando a m; msg_insuficientes a] w).
Proof.
  intros Hn. unfold analisar_ativo, dados_insuficientes. munfold. simpl.
  autorewrite with world. unfold len.
  apply Nat.ltb_lt in Hn. rewrite Hn. by autorewrite with world.
Qed.

Lemma analisar_ativo_long l a m sd td w :
  21 <= nrows (deref w l) ->
  analisar_ativo (Some l) a m sd td w =
    match analisar_try l a m sd td (add_output [msg_analisando a m] w) with
    | (Ret r, w') => (Ret r, w')
    | (Raise e, w') => (Ret None, add_output [msg_erro a e] w')
    end.
Proof.
  intros Hn. unfold analisar_ativo. munfold. simpl.
  autorewrite with world. unfold len.
  apply Nat.ltb_ge in Hn. rewrite Hn.
  destruct (analisar_try _ _ _ _ _ _) as [[r|e] w']; [done|].
  by autorewrite with world.
Qed.

(** A call always returns. *)
Lemma analisar_ativo_returns df a m sd td w :
  exists r w', analisar_ativo df a m sd td w = (Ret r, w').
Proof.
  destruct df as [l|]; [|by rewrite analisar_ativo_None; eauto].
  destruct (Nat.lt_ge_cases (nrows (deref w l)) 21) as [Hn|Hn].
  - rewrite analisar_ativo_short by done. eauto.
  - rewrite analisar_ativo_long by done.
    destruct (analisar_try _ _ _ _ _ _) as [[r|e] w']; eauto.
Qed.

(** A signal comes from the last row of the frame the call leaves. *)
Lemma analisar_ativo_Some_inv df a m sd td w sig w' :
  analisar_ativo df a m sd td w = (Ret (Some sig), w') ->
  exists l df' row c e r,
    df = Some l /\ 21 <= nrows (deref w l) /\
    computed (deref w l) df' /\ nrows (dropna df') <> 0 /\
    iloc_last (dropna df') = Ret row /\
    row !! "Close" = Some c /\ row !! "EMA9" = Some e /\ row !! "RSI" = Some r /\
    direcao c e r <> Neutro /\
    sig = sinal_de (direcao c e r) a m c sd td /\
    w' = add_output (msg_analisando a m :: telegram (mensagem_de (direcao c e r) a m c))
           (set_frame l (dropna df') w).
Proof.
  destruct df as [l|]; [|by rewrite analisar_ativo_None].
  destruct (Nat.lt_ge_cases (nrows (deref w l)) 21) as [Hn|Hn];
    [by rewrite analisar_ativo_short|].
  rewrite analisar_ativo_long by done.
  destruct (analisar_try _ _ _ _ _ _) as [[r|e] w1] eqn:Htry; [|done].
  intros [= -> ->].
  assert (exists df', computed (deref w l) df') as [df' Hc].
  { unfold analisar_try in Htry. munfold.
    destruct (calcular_indicadores l _) as [[[]|e] w2] eqn:Hcalc; [|done].
    apply calcular_indicadores_inv in Hcalc as (df' & Hc & _).
    autorewrite with world in Hc. eauto. }
  assert (computed (deref (add_output [msg_analisando a m] w) l) df') as Hc'
    by (by autorewrite with world).
  destruct (decide (nrows (dropna df') = 0)) as [H0|H0].
  { by rewrite (analisar_try_empty _ _ _ _ _ _ _ Hc' H0) in Htry. }
  destruct (analisar_try_last _ _ _ a m sd td Hc' H0)
    as (row & c & e & r & Hrow & Hclose & Hema & Hrsi & Heq).
  rewrite Heq in Htry. exists l, df', row, c, e, r.
  repeat (split; [done|]).
  destruct (direcao c e r); [done| |]; injection Htry as <- <-;
    by autorewrite with world.
Qed.
End Exec.

Lemma quadro_venda_computed :
  computed (ta:=TaRef.lib) (deref mundo_venda 1%positive) quadro_venda_indicadores.
Proof.
  exists serie_venda, (TaRef.ema 9 serie_venda), (TaRef.ema 21 serie_venda),
    (TaRef.macd_line serie_venda), (TaRef.rsi_line serie_venda),
    (fst (TaRef.bollinger 20 2 serie_venda)), (snd (TaRef.bollinger 20 2 serie_venda)).
  repeat split.
Defined.

(** * The claims *)

(** The three rows of the decision table. *)
Example direcao_compra : direcao 10 9 25 = Compra.
Proof. reflexivity. Qed.

Example direcao_venda : direcao 9 10 75 = Venda.
Proof. reflexivity. Qed.

Example direcao_neutro : direcao 10 10 50 = Neutro.
Proof. reflexivity. Qed.

(** C1: when the frame has at least 21 rows, the indicators are computed
    and a row is left after [dropna], the result is decided by the last row
    alone: a Buy signal when its close is above its EMA9 and its RSI is
    below 30, else a Sell signal when its close is below its EMA9 and its
    RSI is above 70, else no signal. *)
Theorem direction_decided_by_last_row (ta : TaLib) w l df' a m sd td :
  21 <= nrows (deref w l) ->
  computed (deref w l) df' ->
  nrows (dropna df') <> 0 ->
  exists row close ema9 rsi,
    iloc_last (dropna df') = Ret row /\
    row !! "Close" = Some close /\ row !! "EMA9" = Some ema9 /\ row !! "RSI" = Some rsi /\
    fst (analisar_ativo (Some l) a m sd td w) =
      Ret (if PrimFloat.ltb ema9 close && PrimFloat.ltb rsi 30
           then Some (sinal_de Compra a m close sd td)
           else if PrimFloat.ltb close ema9 && PrimFloat.ltb 70 rsi
           then Some (sinal_de Venda a m close sd td)
           else None).
Proof.
  intros Hn Hc H0.
  assert (computed (deref (add_output [msg_analisando a m] w) l) df') as Hc'
    by (by autorewrite with world).
  destruct (analisar_try_last _ _ _ a m sd td Hc' H0)
    as (row & c & e & r & Hrow & Hclose & Hema & Hrsi & Heq).
  exists row, c, e, r. repeat (split; [done|]).
  rewrite analisar_ativo_long, Heq by done. unfold direcao.
  destruct (PrimFloat.ltb e c && PrimFloat.ltb r 30); [done|].
  by destruct (PrimFloat.ltb c e && PrimFloat.ltb 70 r).
Qed.

Lemma direction_decided_by_last_row_witness :
  exists row close ema9 rsi,
    iloc_last (dropna quadro_venda_indicadores) = Ret row /\
    row !! "Close" = Some close /\ row !! "EMA9" = Some ema9 /\ row !! "RSI" = Some rsi /\
    fst (analisar_ativo (ta:=TaRef.lib) (Some 1%positive) "EURUSD=X" "Forex"
           0.003 0.003 mundo_venda) =
      Ret (if PrimFloat.ltb ema9 close && PrimFloat.ltb rsi 30
           then Some (sinal_de Compra "EURUSD=X" "Forex" close 0.003 0.003)
           else if PrimFloat.ltb close ema9 && PrimFloat.ltb 70 rsi
           then Some (sinal_de Venda "EURUSD=X" "Forex" close 0.003 0.003)
           else None).
Proof.
  apply (direction_decided_by_last_row TaRef.lib mundo_venda 1%positive
           quadro_venda_indicadores).
  - vm_compute. lia.
  - exact quadro_venda_computed.
  - vm_compute. lia.
Defined.

(** C2: a returned signal has the close of the last remaining row as its
    entry; for Buy the stop is entry * (1 - stop_dev) and the target is
    entry * (1 + take_dev); for Sell the stop is entry * (1 + stop_dev) and
    the target is entry * (1 - stop_dev), with the stop deviation. *)
Theorem signal_price_levels (ta : TaLib) df a m sd td w sig w' :
  analisar_ativo df a m sd td w = (Ret (Some sig), w') ->
  exists l row,
    df = Some l /\
    iloc_last (deref w' l) = Ret row /\
    row !! "Close" = Some (preco_entrada sig) /\
    match sinal sig with
    | Compra =>
        stop_loss sig = PrimFloat.mul (preco_entrada sig) (PrimFloat.sub 1 sd) /\
        take_profit sig = PrimFloat.mul (preco_entrada sig) (PrimFloat.add 1 td)
    | Venda =>
        stop_loss sig = PrimFloat.mul (preco_entrada sig) (PrimFloat.add 1 sd) /\
        take_profit sig = PrimFloat.mul (preco_entrada sig) (PrimFloat.sub 1 sd)
    | Neutro => False
    end.
Proof.
  intros H. apply analisar_ativo_Some_inv in H
    as (l & df' & row & c & e & r & -> & _ & _ & _ & Hrow & Hclose & _ & _ & Hs & -> & ->).
  exists l, row. autorewrite with world. repeat (split; [done|]).
  simpl. destruct (direcao c e r); [done| |]; by split.
Qed.

Lemma mundo_venda_run :
  analisar_ativo (ta:=TaRef.lib) (Some 1%positive) "EURUSD=X" "Forex" 0.003 0.003 mundo_venda
  = (Ret (Some sinal_venda),
     snd (analisar_ativo (ta:=TaRef.lib) (Some 1%positive) "EURUSD=X" "Forex"
            0.003 0.003 mundo_venda)).
Proof. vm_compute. reflexivity. Defined.

Lemma signal_price_levels_witness :
  exists l row,
    Some 1%positive = Some l /\
    iloc_last (deref (snd (analisar_ativo (ta:=TaRef.lib) (Some 1%positive)
                             "EURUSD=X" "Forex" 0.003 0.003 mundo_venda)) l) = Ret row /\
    row !! "Close" = Some 123.75%float /\
    stop_loss sinal_venda = PrimFloat.mul 123.75 (PrimFloat.add 1 0.003) /\
    take_profit sinal_venda = PrimFloat.mul 123.75 (PrimFloat.sub 1 0.003).
Proof.
  exact (signal_price_levels TaRef.lib _ _ _ _ _ _ _ _ mundo_venda_run).
Defined.

(** C4: for an absent series and for a series of fewer than 21 bars the
    evaluator returns no signal; it writes the two log lines and nothing
    else, whatever the indicator library is, and leaves every frame as it
    was: no indicator is computed and the notifier is not called. *)
Theorem short_series_no_signal (ta : TaLib) df a m sd td w :
  df = None \/ (exists l, df = Some l /\ nrows (deref w l) < 21) ->
  analisar_ativo df a m sd td w =
    (Ret None,
     mkWorld (heap w)
       (output w ++
          [Log INFO ("Analisando " +:+ a +:+ " do mercado " +:+ m);
           Log WARNING ("Dados insuficientes para análise de " +:+ a)])).
Proof.
  intros [->|(l & -> & Hn)].
  - by rewrite analisar_ativo_None.
  - by rewrite analisar_ativo_short.
Qed.

Lemma short_series_no_signal_witness :
  analisar_ativo (ta:=TaRef.lib) (Some 1%positive) "EURUSD=X" "Forex" 0.003 0.003
    (mkWorld {[ 1%positive := mkDF 20 {[ "Close" := replicate 20 1%float ]} ]} []) =
    (Ret None,
     mkWorld {[ 1%positive := mkDF 20 {[ "Close" := replicate 20 1%float ]} ]}
       [Log INFO "Analisando EURUSD=X do mercado Forex";
        Log WARNING "Dados insuficientes para análise de EURUSD=X"]).
Proof.
  refine (short_series_no_signal TaRef.lib (Some 1%positive) "EURUSD=X" "Forex"
            0.003 0.003
            (mkWorld {[ 1%positive := mkDF 20 {[ "Close" := replicate 20 1%float ]} ]} [])
            _).
  right. exists 1%positive. split; [reflexivity|]. vm_compute. lia.
Defined.

(** C5: when the indicators are computed and every bar then misses the
    value of at least one indicator, no row is left after [dropna] and the
    evaluator returns no signal, with the warning of line 80. *)
Theorem no_defined_row_no_signal (ta : TaLib) w l df' a m sd td :
  21 <= nrows (deref w l) ->
  computed (deref w l) df' ->
  (forall i, i < nrows df' ->
     exists k c, k ∈ indicator_columns /\ columns df' !! k = Some c /\ notna c i = false) ->
  nrows (dropna df') = 0 /\
  analisar_ativo (Some l) a m sd td w =
    (Ret None,
     add_output [msg_analisando a m; msg_sem_linhas a] (set_frame l (dropna df') w)).
Proof.
  intros Hn Hc Hall.
  assert (nrows (dropna df') = 0) as H0.
  { apply dropna_all_missing. intros i Hi.
    destruct (Hall i Hi) as (k & c & _ & Hk & Hna).
    by eapply row_complete_false. }
  split; [done|].
  rewrite analisar_ativo_long by done.
  rewrite (analisar_try_empty _ _ df') by (by autorewrite with world).
  by autorewrite with world.
Qed.

Lemma quadro_21_computed :
  computed (ta:=TaRef.lib) (deref (mkWorld {[ 1%positive := quadro_21 ]} []) 1%positive)
    quadro_21_indicadores.
Proof.
  exists (replicate 21 1%float).
  do 6 eexists. repeat split.
Defined.

Lemma no_defined_row_no_signal_witness :
  nrows (dropna quadro_21_indicadores) = 0 /\
  analisar_ativo (ta:=TaRef.lib) (Some 1%positive) "BTC-USD" "Criptomoedas" 0.003 0.003
    (mkWorld {[ 1%positive := quadro_21 ]} []) =
    (Ret None,
     add_output [msg_analisando "BTC-USD" "Criptomoedas"; msg_sem_linhas "BTC-USD"]
       (set_frame 1%positive (dropna quadro_21_indicadores)
          (mkWorld {[ 1%positive := quadro_21 ]} []))).
Proof.
  refine (no_defined_row_no_signal TaRef.lib (mkWorld {[ 1%positive := quadro_21 ]} [])
            1%positive quadro_21_indicadores _ _ _ _ _ quadro_21_computed _).
  - vm_compute. lia.
  - intros i Hi. exists "MACD", (replicate 21 nan).
    split; [set_solver|]. split; [by vm_compute|].
    change (nrows quadro_21_indicadores) with 21 in Hi.
    unfold notna. rewrite lookup_replicate_2 by done. reflexivity.
Defined.

(** C6: a call of the evaluator always returns, for every input and every
    indicator library; when the body of the [try] raises, at the indicators
    or at the decision, the call logs the error and returns no signal. *)
Theorem evaluator_never_raises (ta : TaLib) df a m sd td w :
  exists r w',
    analisar_ativo df a m sd td w = (Ret r, w') /\
    forall l e w1,
      df = Some l -> 21 <= nrows (deref w l) ->
      analisar_try l a m sd td (add_output [msg_analisando a m] w) = (Raise e, w1) ->
      r = None /\
      w' = add_output [Log ERROR ("Erro ao analisar " +:+ a +:+ ": " +:+ exn_str e)] w1.
Proof.
  destruct (analisar_ativo_returns df a m sd td w) as (r & w' & Heq).
  exists r, w'. split; [done|].
  intros l e w1 -> Hn Htry.
  rewrite analisar_ativo_long, Htry in Heq by done.
  by injection Heq as <- <-.
Qed.

(** A frame without its close column: the [KeyError] is caught. *)
Example analisar_ativo_sem_close :
  analisar_ativo (ta:=TaRef.lib) (Some 1%positive) "GC=F" "Commodities" 0.003 0.003
    (mkWorld {[ 1%positive := quadro_sem_close ]} []) =
    (Ret None,
     mkWorld {[ 1%positive := quadro_sem_close ]}
       [Log INFO "Analisando GC=F do mercado Commodities";
        Log ERROR "Erro ao analisar GC=F: 'Close'"]).
Proof. vm_compute. reflexivity. Qed.

(** * The warm-up of the MACD line *)
Section TaRefFacts.
Import TaRef.

Lemma sub_nan_r x : PrimFloat.sub x nan = nan.
Proof.
  apply Prim2SF_inj. rewrite sub_spec.
  change (Prim2SF nan) with S754_nan.
  by destruct (Prim2SF x).
Qed.

Lemma ewm_step_nobs alpha st cur : snd (ewm_step alpha st cur) <= S (snd st).
Proof.
  destruct st as [[weighted old_wt] nobs]. unfold ewm_step. simpl.
  destruct (is_obs cur), (is_obs weighted); simpl; lia.
Qed.

Lemma emit_if_warmup nobs minp x : nobs < minp -> emit_if nobs minp x = nan.
Proof.
  intros H. unfold emit_if. apply Nat.leb_gt in H. by rewrite H.
Qed.

Lemma ewm_go_warmup alpha minp xs :
  forall st k i b,
    snd st <= k -> ewm_go alpha minp st xs !! i = Some b -> k + S i < minp -> b = nan.
Proof.
  induction xs as [|cur xs IH]; intros st k i b Hk Hi Hlt; [done|].
  pose proof (ewm_step_nobs alpha st cur) as Hstep.
  destruct i as [|i]; simpl in Hi.
  - injection Hi as <-. apply emit_if_warmup. lia.
  - eapply (IH _ (S k)); [|done|]; lia.
Qed.

Lemma ewm_mean_warmup com mp xs i b :
  ewm_mean com mp xs !! i = Some b -> S i < mp -> b = nan.
Proof.
  unfold ewm_mean. destruct (prep_values xs) as [|x0 xs']; [done|].
  intros Hi Hlt. destruct i as [|i]; simpl in Hi.
  - injection Hi as <-. apply emit_if_warmup. destruct (is_obs x0); lia.
  - eapply (ewm_go_warmup _ _ _ _ 1); [|done|lia].
    simpl. destruct (is_obs x0); lia.
Qed.

Lemma macd_line_warmup xs i x :
  macd_line xs !! i = Some x -> i < 25 -> x = nan.
Proof.
  unfold macd_line, ema. intros Hi Hlt.
  apply lookup_zip_with_Some in Hi as (a & b & -> & _ & Hb).
  apply ewm_mean_warmup in Hb as ->; [|lia]. apply sub_nan_r.
Qed.

Lemma taref_macd_warmup : macd_warmup lib.
Proof.
  intros close s i x [= <-] Hi Hx.
  by rewrite (macd_line_warmup _ _ _ Hx Hi).
Qed.
End TaRefFacts.

Section Warmup.
Context {ta : TaLib} (Hwarm : macd_warmup ta).

(** With the six columns set, the first 25 rows miss their MACD value. *)
Lemma computed_warmup_rows df df' i :
  computed df df' -> i < 25 -> i < nrows df' -> row_complete df' i = false.
Proof.
  intros (close & e9 & e21 & m & r & bh & bl & _ & _ & _ & Hm & _ & _ & ->) Hi Hn.
  apply (row_complete_false _ _ "MACD" (reindex (nrows df) m)).
  - unfold with_indicators. rewrite !setitem_lookup_ne by done.
    exact (setitem_lookup _ _ _).
  - unfold notna. rewrite reindex_lookup by done.
    destruct (m !! i) as [x|] eqn:Hx; simpl; [|done].
    by rewrite (Hwarm _ _ _ _ Hm Hi Hx).
Qed.

Lemma computed_dropna_nrows df df' :
  computed df df' -> nrows (dropna df') <= nrows df - 25.
Proof.
  intros Hc. rewrite <- (computed_nrows _ _ Hc).
  apply dropna_nrows_warmup. intros i. by apply (computed_warmup_rows df).
Qed.
End Warmup.

Section Mutation.
Context {ta : TaLib}.

(** Once the indicators are computed, the call leaves the frame with the
    six columns and without the rows that miss a value. *)
Lemma analisar_ativo_frame l w df' a m sd td :
  21 <= nrows (deref w l) -> computed (deref w l) df' ->
  exists r evs,
    analisar_ativo (Some l) a m sd td w =
      (Ret r, add_output evs (set_frame l (dropna df') w)).
Proof.
  intros Hn Hc. rewrite analisar_ativo_long by done.
  assert (computed (deref (add_output [msg_analisando a m] w) l) df') as Hc'
    by (by autorewrite with world).
  destruct (decide (nrows (dropna df') = 0)) as [H0|H0].
  - rewrite (analisar_try_empty _ _ _ _ _ _ _ Hc' H0).
    autorewrite with world. by do 2 eexists.
  - destruct (analisar_try_last _ _ _ a m sd td Hc' H0)
      as (row & c & e & r & _ & _ & _ & _ & ->).
    destruct (direcao c e r); simpl; autorewrite with world; by do 2 eexists.
Qed.
End Mutation.

(** C9: with a library whose MACD line has no value on the first 25 bars,
    a call on a frame of at least 21 rows whose indicators are computed
    changes the caller's frame in the store: the frame now has the six
    indicator columns, has lost every row with a missing value, the first
    25 among them, and is not the frame the caller passed. *)
Theorem evaluator_mutates_frame (ta : TaLib) w l df df' a m sd td :
  macd_warmup ta ->
  heap w !! l = Some df ->
  21 <= nrows df ->
  computed df df' ->
  heap (snd (analisar_ativo (Some l) a m sd td w)) !! l = Some (dropna df') /\
  (forall k, k ∈ indicator_columns -> is_Some (columns (dropna df') !! k)) /\
  (forall k c i, columns (dropna df') !! k = Some c -> i < nrows (dropna df') ->
                 notna c i = true) /\
  nrows (dropna df') <= nrows df - 25 /\
  dropna df' <> df.
Proof.
  intros Hwarm Hl Hn Hc.
  pose proof (deref_lookup _ _ _ Hl) as Hd.
  pose proof (computed_dropna_nrows Hwarm _ _ Hc) as Hrows.
  repeat split.
  - destruct (analisar_ativo_frame l w df' a m sd td) as (r & evs & ->);
      [by rewrite Hd..|].
    simpl. apply lookup_insert_eq.
  - intros k Hk. destruct (computed_columns df df' k Hc) as [c Hcol]; [by right|].
    rewrite dropna_columns, Hcol. by eexists.
  - intros k c i Hk Hi. apply notna_Some. by eapply dropna_cell.
  - done.
  - intros Heq. rewrite Heq in Hrows. lia.
Qed.

Lemma evaluator_mutates_frame_witness :
  heap (snd (analisar_ativo (ta:=TaRef.lib) (Some 1%positive) "EURUSD=X" "Forex"
               0.003 0.003 mundo_venda)) !! 1%positive
    = Some (dropna quadro_venda_indicadores) /\
  (forall k, k ∈ indicator_columns ->
             is_Some (columns (dropna quadro_venda_indicadores) !! k)) /\
  (forall k c i, columns (dropna quadro_venda_indicadores) !! k = Some c ->
                 i < nrows (dropna quadro_venda_indicadores) -> notna c i = true) /\
  nrows (dropna quadro_venda_indicadores) <= nrows quadro_venda - 25 /\
  dropna quadro_venda_indicadores <> quadro_venda.
Proof.
  refine (evaluator_mutates_frame TaRef.lib mundo_venda 1%positive quadro_venda
            quadro_venda_indicadores _ _ _ _ taref_macd_warmup _ _
            quadro_venda_computed).
  - reflexivity.
  - vm_compute. lia.
Defined.

(** C10: with a library whose MACD line has no value on the first 25 bars,
    a series of 21 to 25 bars gives no signal; when its indicators are
    computed every row is dropped and the call ends at the warning of
    line 80. *)
Theorem macd_warmup_no_signal (ta : TaLib) w l a m sd td :
  macd_warmup ta ->
  21 <= nrows (deref w l) <= 25 ->
  fst (analisar_ativo (Some l) a m sd td w) = Ret None /\
  forall df', computed (deref w l) df' ->
    nrows (dropna df') = 0 /\
    analisar_ativo (Some l) a m sd td w =
      (Ret None,
       add_output [msg_analisando a m; msg_sem_linhas a] (set_frame l (dropna df') w)).
Proof.
  intros Hwarm [Hlo Hhi].
  assert (forall df', computed (deref w l) df' -> nrows (dropna df') = 0) as Hzero.
  { intros df' Hc. pose proof (computed_dropna_nrows Hwarm _ _ Hc). lia. }
  split.
  - destruct (analisar_ativo_returns (Some l) a m sd td w) as (r & w' & Heq).
    rewrite Heq. simpl. destruct r as [sig|]; [|done].
    apply analisar_ativo_Some_inv in Heq
      as (l' & df' & ? & ? & ? & ? & [= <-] & _ & Hc & H0 & _).
    by rewrite (Hzero _ Hc) in H0.
  - intros df' Hc. split; [by apply Hzero|].
    rewrite analisar_ativo_long by done.
    rewrite (analisar_try_empty _ _ df'); [|by autorewrite with world|by apply Hzero].
    by autorewrite with world.
Qed.

Lemma macd_warmup_no_signal_witness :
  fst (analisar_ativo (ta:=TaRef.lib) (Some 1%positive) "BTC-USD" "Criptomoedas"
         0.003 0.003 (mkWorld {[ 1%positive := quadro_21 ]} [])) = Ret None /\
  forall df',
    computed (ta:=TaRef.lib) (deref (mkWorld {[ 1%positive := quadro_21 ]} []) 1%positive) df' ->
    nrows (dropna df') = 0 /\
    analisar_ativo (ta:=TaRef.lib) (Some 1%positive) "BTC-USD" "Criptomoedas" 0.003 0.003
      (mkWorld {[ 1%positive := quadro_21 ]} []) =
      (Ret None,
       add_output [msg_analisando "BTC-USD" "Criptomoedas"; msg_sem_linhas "BTC-USD"]
         (set_frame 1%positive (dropna df') (mkWorld {[ 1%positive := quadro_21 ]} []))).
Proof.
  refine (macd_warmup_no_signal TaRef.lib (mkWorld {[ 1%positive := quadro_21 ]} [])
            1%positive _ _ _ _ taref_macd_warmup _).
  vm_compute. split; lia.
Defined.

(** * Rounding in binary64

    The stop and the target are binary64 products of the entry and a factor
    [1 - dev] or [1 + dev].  This part follows [SpecFloat]'s rounding of a
    positive mantissa and shows that it keeps the order against a
    representable bound. *)

Section Binary64.
Local Open Scope Z_scope.

Lemma fexp_unfold e : fexp prec emax e = Z.max (e - 53) (-1074).
Proof. reflexivity. Qed.

Lemma digits2_pos_bounds m :
  2 ^ (Z.pos (digits2_pos m) - 1) <= Z.pos m < 2 ^ Z.pos (digits2_pos m).
Proof.
  induction m as [m IH|m IH|]; simpl digits2_pos.
  - rewrite Pos2Z.inj_succ.
    replace (Z.succ (Z.pos (digits2_pos m)) - 1) with (Z.succ (Z.pos (digits2_pos m) - 1)) by lia.
    rewrite !Z.pow_succ_r by lia. lia.
  - rewrite Pos2Z.inj_succ.
    replace (Z.succ (Z.pos (digits2_pos m)) - 1) with (Z.succ (Z.pos (digits2_pos m) - 1)) by lia.
    rewrite !Z.pow_succ_r by lia. lia.
  - simpl. lia.
Qed.

Lemma digits2_pos_le m j : 0 <= j -> Z.pos m < 2 ^ j -> Z.pos (digits2_pos m) <= j.
Proof.
  intros Hj Hm. destruct (digits2_pos_bounds m) as [Hlo _].
  destruct (Z.le_gt_cases (Z.pos (digits2_pos m)) j) as [|Hgt]; [done|].
  assert (2 ^ j <= 2 ^ (Z.pos (digits2_pos m) - 1)) by (apply Z.pow_le_mono_r; lia).
  lia.
Qed.

Lemma digits2_pos_ge m j : 0 <= j -> 2 ^ j <= Z.pos m -> j + 1 <= Z.pos (digits2_pos m).
Proof.
  intros Hj Hm. destruct (digits2_pos_bounds m) as [_ Hhi].
  destruct (Z.le_gt_cases (j + 1) (Z.pos (digits2_pos m))) as [|Hgt]; [done|].
  assert (2 ^ Z.pos (digits2_pos m) <= 2 ^ j) by (apply Z.pow_le_mono_r; lia).
  lia.
Qed.

Lemma canonical_mantissa_inv m e :
  canonical_mantissa prec emax m e = true ->
  Z.pos (digits2_pos m) <= 53 /\ -1074 <= e /\
  (Z.pos (digits2_pos m) = 53 \/ e = -1074).
Proof.
  unfold canonical_mantissa. rewrite fexp_unfold. intros H%Z.eqb_eq. lia.
Qed.

Lemma bounded_inv m e :
  bounded prec emax m e = true ->
  canonical_mantissa prec emax m e = true /\ e <= 971.
Proof.
  unfold bounded. intros [H1 H2%Z.leb_le]%andb_prop. split; [done|].
  exact H2.
Qed.

(** ** Shifting a mantissa to the right *)

Lemma iter_pos_invariant {A} (f : A -> A) (P : Z -> A -> Prop) :
  (forall n x, 0 <= n -> P n x -> P (n + 1) (f x)) ->
  forall p n x, 0 <= n -> P n x -> P (n + Z.pos p) (SpecFloat.iter_pos f p x).
Proof.
  intros Hf. induction p as [p IH|p IH|]; intros n x Hn Hx; simpl.
  - replace (n + Z.pos p~1) with (n + 1 + Z.pos p + Z.pos p) by lia.
    apply IH; [lia|]. apply IH; [lia|]. by apply Hf.
  - replace (n + Z.pos p~0) with (n + Z.pos p + Z.pos p) by lia.
    apply IH; [lia|]. by apply IH.
  - by apply Hf.
Qed.

Lemma mod_pow2_succ M n :
  0 <= n -> M mod 2 ^ (n + 1) = 0 ->
  M mod 2 ^ n = 0 /\ (M / 2 ^ n) mod 2 = 0.
Proof.
  intros Hn H. assert (0 < 2 ^ n) by (apply Z.pow_pos_nonneg; lia).
  rewrite Z.pow_add_r, Z.pow_1_r in H by lia.
  rewrite Z.rem_mul_r in H by lia.
  pose proof (Z.mod_pos_bound M (2 ^ n)).
  pose proof (Z.mod_pos_bound (M / 2 ^ n) 2). nia.
Qed.

Lemma shr_1_step M n mrs :
  0 <= M -> 0 <= n ->
  shr_m mrs = M / 2 ^ n /\
    (M mod 2 ^ n = 0 -> shr_r mrs = false /\ shr_s mrs = false) ->
  shr_m (shr_1 mrs) = M / 2 ^ (n + 1) /\
    (M mod 2 ^ (n + 1) = 0 -> shr_r (shr_1 mrs) = false /\ shr_s (shr_1 mrs) = false).
Proof.
  intros HM Hn [Hm Hex]. destruct mrs as [m r s]. simpl in Hm, Hex.
  assert (0 < 2 ^ n) by (apply Z.pow_pos_nonneg; lia).
  assert (Hdiv : M / 2 ^ (n + 1) = m / 2).
  { rewrite Z.pow_add_r, Z.pow_1_r by lia. rewrite <- Z.div_div by lia. by rewrite Hm. }
  assert (Hm0 : 0 <= m) by (rewrite Hm; apply Z.div_pos; lia).
  rewrite Hdiv. split.
  - clear -Hm0. destruct m as [|[p|p|]|p]; cbn [shr_1 shr_m]; Z.div_mod_to_equations; lia.
  - intros [H1 H2]%mod_pow2_succ; [|done]. destruct (Hex H1) as [-> ->].
    rewrite <- Hm in H2.
    clear -H2 Hm0. destruct m as [|[p|p|]|p]; cbn [shr_1 shr_m shr_r shr_s orb]; try done;
      Z.div_mod_to_equations; lia.
Qed.

Lemma shr_exact M e n :
  0 <= M ->
  exists mrs,
    shr (Build_shr_record M false false) e n = (mrs, e + Z.max n 0) /\
    shr_m mrs = M / 2 ^ Z.max n 0 /\
    (M mod 2 ^ Z.max n 0 = 0 -> loc_of_shr_record mrs = loc_Exact).
Proof.
  intros HM. destruct n as [|p|p]; simpl shr.
  - eexists. split; [by rewrite Z.add_0_r|]. simpl. by rewrite Z.div_1_r.
  - eexists. split; [done|].
    pose proof (iter_pos_invariant shr_1
      (fun n mrs => shr_m mrs = M / 2 ^ n /\
         (M mod 2 ^ n = 0 -> shr_r mrs = false /\ shr_s mrs = false))
      (fun n x Hn Hx => shr_1_step M n x HM Hn Hx) p 0
      (Build_shr_record M false false) (Z.le_refl 0)) as Hit.
    simpl in Hit. rewrite Z.div_1_r in Hit. destruct (Hit ltac:(done)) as [H1 H2].
    split; [done|]. intros Hz. destruct (H2 Hz) as [Hr Hs].
    destruct (SpecFloat.iter_pos shr_1 p _) as [m' r' s']. simpl in Hr, Hs. by subst.
  - eexists. split; [by rewrite Z.add_0_r|]. simpl. by rewrite Z.div_1_r.
Qed.

Lemma round_nearest_even_cases m l :
  round_nearest_even m l = m \/ round_nearest_even m l = m + 1.
Proof.
  destruct l as [|[]]; simpl; auto. destruct (Z.even m); auto.
Qed.

(** ** Rounding a positive mantissa

    [binary_round_aux] on an exact positive mantissa [m] at exponent [e],
    when [e] is not above the exponent [E] of the format at that magnitude:
    the mantissa is divided by [2 ^ (E - e)] and rounded to [mr], which is
    the quotient or its successor, and the quotient itself when the
    division is exact.  The result is zero, or [mr] at exponent [E], or,
    when rounding carried into a 54th bit, [2 ^ 52] at exponent [E + 1]. *)
Lemma binary_round_aux_cases m e E :
  E = fexp prec emax (Z.pos (digits2_pos m) + e) -> e <= E ->
  exists mr,
    (mr = Z.pos m / 2 ^ (E - e) \/ mr = Z.pos m / 2 ^ (E - e) + 1) /\
    (Z.pos m mod 2 ^ (E - e) = 0 -> mr = Z.pos m / 2 ^ (E - e)) /\
    ((mr = 0 /\
      binary_round_aux prec emax false (Z.pos m) e loc_Exact = S754_zero false) \/
     (exists m', mr = Z.pos m' /\
      binary_round_aux prec emax false (Z.pos m) e loc_Exact =
        if E <=? 971 then S754_finite false m' E else S754_infinity false) \/
     (mr = 2 ^ 53 /\
      binary_round_aux prec emax false (Z.pos m) e loc_Exact =
        if E + 1 <=? 971 then S754_finite false 4503599627370496 (E + 1)
        else S754_infinity false)).
Proof.
  intros HE Hle. rewrite fexp_unfold in HE.
  set (d := Z.pos (digits2_pos m)) in *.
  set (k := E - e). assert (Hk : 0 <= k) by lia.
  assert (Hp : 0 < 2 ^ k) by (apply Z.pow_pos_nonneg; lia).
  pose proof (digits2_pos_bounds m) as [Hlo Hhi]. fold d in Hlo, Hhi.
  unfold binary_round_aux, shr_fexp. cbn [Zdigits2 shr_record_of_loc]. fold d.
  assert (HE' : fexp prec emax (d + e) = E) by (rewrite fexp_unfold; lia).
  rewrite HE'. fold k.
  destruct (shr_exact (Z.pos m) e k ltac:(lia)) as (mrs & Hshr & Hm1 & Hex1).
  rewrite Z.max_l in Hshr, Hm1, Hex1 by lia.
  replace (e + k) with E in Hshr by lia. rewrite Hshr.
  set (mr := round_nearest_even (shr_m mrs) (loc_of_shr_record mrs)).
  assert (Hq : 0 <= Z.pos m / 2 ^ k) by (apply Z.div_pos; lia).
  assert (Hmr : mr = Z.pos m / 2 ^ k \/ mr = Z.pos m / 2 ^ k + 1).
  { unfold mr. rewrite <- Hm1. apply round_nearest_even_cases. }
  assert (Hexact : Z.pos m mod 2 ^ k = 0 -> mr = Z.pos m / 2 ^ k).
  { intros Hz. unfold mr. by rewrite (Hex1 Hz), <- Hm1. }
  set (n2 := fexp prec emax (Zdigits2 mr + E) - E).
  destruct (shr_exact mr E n2 ltac:(lia)) as (mrs2 & Hshr2 & Hm2 & _).
  rewrite Hshr2. clearbody mr. clear Hshr Hshr2 Hm1 Hex1 mrs.
  exists mr. split; [done|]. split; [done|].
  change (Z.sub emax prec) with 971.
  assert (Hn2 : n2 <= 0 \/ (n2 = 1 /\ mr = 2 ^ 53)).
  { unfold n2. rewrite fexp_unfold. destruct mr as [|q|q]; [simpl; lia| |lia].
    cbn [Zdigits2].
    destruct (Z.le_gt_cases k d) as [Hkd|Hkd].
    - assert (Z.pos m / 2 ^ k < 2 ^ (d - k)).
      { apply Z.div_lt_upper_bound; [done|]. rewrite <- Z.pow_add_r by lia.
        by replace (k + (d - k)) with d by lia. }
      destruct (Z_lt_le_dec (Z.pos q) (2 ^ (d - k))) as [Hlt|Hge].
      + pose proof (digits2_pos_le q (d - k) ltac:(lia) Hlt). lia.
      + assert (Hq2 : Z.pos q = 2 ^ (d - k)) by lia.
        pose proof (digits2_pos_ge q (d - k) ltac:(lia) Hge).
        assert (Z.pos q < 2 ^ (d - k + 1)).
        { rewrite Z.pow_add_r, Z.pow_1_r by lia. lia. }
        pose proof (digits2_pos_le q (d - k + 1) ltac:(lia) ltac:(done)).
        destruct (Z_le_gt_dec (-1074) (d + e - 53)) as [Hn|Hn]; [right|left; lia].
        split; [lia|]. rewrite Hq2. f_equal. lia.
    - assert (Z.pos m / 2 ^ k = 0).
      { apply Z.div_small. split; [lia|].
        assert (2 ^ d <= 2 ^ k) by (apply Z.pow_le_mono_r; lia). lia. }
      assert (q = 1%positive) as -> by lia. simpl. lia. }
  destruct Hn2 as [Hn2|[Hn2 Hmr53]].
  - rewrite Z.max_r in Hm2 by lia. rewrite Z.max_r by lia.
    rewrite Z.div_1_r in Hm2. rewrite Hm2, Z.add_0_r.
    destruct mr as [|q|q]; [by left|right; left; by exists q|lia].
  - right; right. split; [done|]. rewrite Hn2 in *. rewrite Hm2, Hmr53.
    reflexivity.
Qed.

Lemma normal_quotient m k :
  0 <= k -> k = Z.pos (digits2_pos m) - 53 -> 2 ^ 52 <= Z.pos m / 2 ^ k.
Proof.
  intros Hk Hd. pose proof (digits2_pos_bounds m) as [Hlo _].
  apply Z.div_le_lower_bound; [apply Z.pow_pos_nonneg; lia|].
  rewrite <- Z.pow_add_r by lia.
  by replace (k + 52) with (Z.pos (digits2_pos m) - 1) by lia.
Qed.

(** Rounding is monotone against a bound [N * 2 ^ Ex] with [N] below
    [2 ^ 53]: a value that does not exceed the bound does not round above
    it. *)
Lemma binary_round_aux_le m e N Ex :
  e <= fexp prec emax (Z.pos (digits2_pos m) + e) ->
  N < 2 ^ 53 -> -1074 <= Ex <= 971 ->
  e <= Ex -> Z.pos m <= N * 2 ^ (Ex - e) ->
  binary_round_aux prec emax false (Z.pos m) e loc_Exact = S754_zero false \/
  exists m' e',
    binary_round_aux prec emax false (Z.pos m) e loc_Exact =
      S754_finite false m' e' /\
    e' <= Ex /\ Z.pos m' <= N * 2 ^ (Ex - e').
Proof.
  intros Hpre HN HEx Hle Hm.
  destruct (binary_round_aux_cases m e _ eq_refl Hpre) as (mr & Hmr & Hexact & Hres).
  rewrite fexp_unfold in Hpre, Hmr, Hexact, Hres.
  set (d := Z.pos (digits2_pos m)) in *.
  set (E := Z.max (d + e - 53) (-1074)) in *.
  assert (0 < 2 ^ (Ex - e)) by (apply Z.pow_pos_nonneg; lia).
  assert (Hd : d <= 53 + (Ex - e)).
  { apply digits2_pos_le; [lia|]. rewrite Z.pow_add_r by lia. nia. }
  assert (HEle : E <= Ex) by lia.
  set (k := E - e) in *. assert (0 < 2 ^ k) by (apply Z.pow_pos_nonneg; lia).
  assert (0 < 2 ^ (Ex - E)) by (apply Z.pow_pos_nonneg; lia).
  assert (Hsplit : 2 ^ (Ex - e) = 2 ^ k * 2 ^ (Ex - E)).
  { rewrite <- Z.pow_add_r by lia. f_equal. lia. }
  set (K := N * 2 ^ (Ex - E)).
  assert (HmK : Z.pos m <= 2 ^ k * K) by (unfold K; nia).
  assert (Hq : Z.pos m / 2 ^ k <= K) by (by apply Z.div_le_upper_bound).
  assert (HmrK : mr <= K).
  { destruct (Z.eq_dec (Z.pos m / 2 ^ k) K) as [Heq|Hne]; [|lia].
    rewrite Hexact; [done|].
    pose proof (Z.div_mod (Z.pos m) (2 ^ k) ltac:(lia)).
    pose proof (Z.mod_pos_bound (Z.pos m) (2 ^ k) ltac:(lia)). nia. }
  change (2 ^ 53) with 9007199254740992 in *.
  destruct Hres as [[_ ->]|[(m' & Hm' & ->)|[Hm53 ->]]]; [by left| |]; right.
  - rewrite (proj2 (Z.leb_le E 971)) by lia. exists m', E.
    split; [done|]. split; [done|]. fold K. lia.
  - assert (E < Ex).
    { destruct (Z.eq_dec E Ex) as [Heq|]; [|lia].
      unfold K in HmrK. rewrite Heq, Z.sub_diag, Z.pow_0_r in HmrK. lia. }
    assert (Hhalf : 2 ^ (Ex - E) = 2 * 2 ^ (Ex - (E + 1))).
    { replace (Ex - E) with (Z.succ (Ex - (E + 1))) by lia.
      rewrite Z.pow_succ_r by lia. done. }
    rewrite (proj2 (Z.leb_le (E + 1) 971)) by lia. eexists _, _.
    split; [done|]. split; [lia|]. unfold K in HmrK. nia.
Qed.

(** And a value that is not below a bound [N * 2 ^ Ex], with [N] a normal
    mantissa or [Ex] the least exponent, does not round below it. *)
Lemma binary_round_aux_ge m e N Ex :
  e <= fexp prec emax (Z.pos (digits2_pos m) + e) ->
  0 < N -> -1074 <= Ex -> 2 ^ 52 <= N \/ Ex = -1074 ->
  e <= Ex -> N * 2 ^ (Ex - e) <= Z.pos m ->
  binary_round_aux prec emax false (Z.pos m) e loc_Exact = S754_infinity false \/
  exists m' e',
    binary_round_aux prec emax false (Z.pos m) e loc_Exact =
      S754_finite false m' e' /\
    (Ex < e' \/ (e' = Ex /\ N <= Z.pos m')).
Proof.
  intros Hpre HN HEx Hnorm Hle Hm.
  destruct (binary_round_aux_cases m e _ eq_refl Hpre) as (mr & Hmr & Hexact & Hres).
  rewrite fexp_unfold in Hpre, Hmr, Hexact, Hres.
  set (d := Z.pos (digits2_pos m)) in *.
  set (E := Z.max (d + e - 53) (-1074)) in *.
  assert (0 < 2 ^ (Ex - e)) by (apply Z.pow_pos_nonneg; lia).
  assert (HEle : Ex <= E).
  { destruct Hnorm as [Hnorm|Hnorm]; [|lia].
    assert (52 + (Ex - e) + 1 <= d); [|lia].
    apply digits2_pos_ge; [lia|]. rewrite Z.pow_add_r by lia. nia. }
  set (k := E - e) in *. assert (0 < 2 ^ k) by (apply Z.pow_pos_nonneg; lia).
  assert (Hmr0 : N <= mr /\ E = Ex \/ 2 ^ 52 <= mr /\ Ex < E).
  { destruct (Z.eq_dec E Ex) as [Heq|Hne]; [left|right]; (split; [|lia]).
    - assert (N <= Z.pos m / 2 ^ k); [|lia].
      apply Z.div_le_lower_bound; [done|]. unfold k. rewrite Heq. lia.
    - pose proof (normal_quotient m k ltac:(lia) ltac:(lia)). lia. }
  change (2 ^ 52) with 4503599627370496 in Hmr0.
  destruct Hres as [[-> _]|[(m' & Hm' & ->)|[Hm53 ->]]]; [lia| |].
  - destruct (E <=? 971); [right|by left]. exists m', E. split; [done|]. lia.
  - destruct (E + 1 <=? 971); [right|by left]. eexists _, _. split; [done|]. lia.
Qed.

Lemma binary_round_aux_nonzero m e s :
  e <= fexp prec emax (Z.pos (digits2_pos m) + e) -> -1074 <= e ->
  binary_round_aux prec emax false (Z.pos m) e loc_Exact <> S754_zero s.
Proof.
  intros Hpre He.
  destruct (binary_round_aux_cases m e _ eq_refl Hpre) as (mr & Hmr & Hexact & Hres).
  rewrite fexp_unfold in Hpre, Hmr, Hexact, Hres.
  set (d := Z.pos (digits2_pos m)) in *.
  set (E := Z.max (d + e - 53) (-1074)) in *.
  destruct Hres as [[Hz _]|[(m' & Hm' & ->)|[Hm53 ->]]].
  - exfalso. destruct (Z_le_gt_dec (-1074) (d + e - 53)) as [Hn|Hn].
    + pose proof (normal_quotient m (E - e) ltac:(lia) ltac:(lia)).
      change (2 ^ 52) with 4503599627370496 in *. lia.
    + replace (E - e) with 0 in Hmr by lia. rewrite Z.pow_0_r, Z.div_1_r in Hmr. lia.
  - by destruct (E <=? 971).
  - by destruct (E + 1 <=? 971).
Qed.

(** ** Aligning and normalising *)

Lemma iter_xO_spec m d : Z.pos (Pos.iter xO m d) = Z.pos m * 2 ^ Z.pos d.
Proof.
  induction d as [|d IH] using Pos.peano_ind; [simpl; lia|].
  rewrite Pos.iter_succ, Pos2Z.inj_succ, Z.pow_succ_r by lia.
  change (Z.pos (Pos.iter xO m d)~0) with (2 * Z.pos (Pos.iter xO m d)). lia.
Qed.

Lemma shl_align_spec mx ex ex' :
  exists mz,
    shl_align mx ex ex' = (mz, Z.min ex ex') /\
    Z.pos mz = Z.pos mx * 2 ^ (ex - Z.min ex ex').
Proof.
  unfold shl_align. destruct (ex' - ex) as [|d|d] eqn:Hd.
  - exists mx. replace (Z.min ex ex') with ex by lia.
    rewrite Z.sub_diag, Z.pow_0_r. split; [done|lia].
  - exists mx. replace (Z.min ex ex') with ex by lia.
    rewrite Z.sub_diag, Z.pow_0_r. split; [done|lia].
  - exists (Pos.iter xO mx d). replace (Z.min ex ex') with ex' by lia.
    split; [done|]. rewrite iter_xO_spec. f_equal. f_equal. lia.
Qed.

Lemma binary_round_spec q e :
  exists mz ez,
    binary_round prec emax false q e =
      binary_round_aux prec emax false (Z.pos mz) ez loc_Exact /\
    ez <= e /\ Z.pos mz = Z.pos q * 2 ^ (e - ez) /\
    ez <= fexp prec emax (Z.pos (digits2_pos mz) + ez) /\
    (-1074 <= e -> -1074 <= ez).
Proof.
  unfold binary_round.
  destruct (shl_align_spec q e (fexp prec emax (Z.pos (digits2_pos q) + e)))
    as (mz & Heq & Hmz).
  rewrite Heq. rewrite fexp_unfold in *.
  set (dq := Z.pos (digits2_pos q)) in *.
  set (ez := Z.min e (Z.max (dq + e - 53) (-1074))) in *.
  exists mz, ez. split; [done|]. split; [lia|]. split; [done|]. split; [|lia].
  pose proof (digits2_pos_bounds q) as [Hlo Hhi]. fold dq in Hlo, Hhi.
  assert (0 < 2 ^ (e - ez)) by (apply Z.pow_pos_nonneg; lia).
  assert (dq + (e - ez) <= Z.pos (digits2_pos mz)).
  { replace (dq + (e - ez)) with (dq - 1 + (e - ez) + 1) by lia.
    apply digits2_pos_ge; [lia|]. rewrite Z.pow_add_r by lia. nia. }
  rewrite fexp_unfold. lia.
Qed.

Lemma binary_round_le q e N Ex :
  N < 2 ^ 53 -> -1074 <= Ex <= 971 ->
  e <= Ex -> Z.pos q <= N * 2 ^ (Ex - e) ->
  binary_round prec emax false q e = S754_zero false \/
  exists m' e',
    binary_round prec emax false q e = S754_finite false m' e' /\
    e' <= Ex /\ Z.pos m' <= N * 2 ^ (Ex - e').
Proof.
  intros HN HEx Hle Hq.
  destruct (binary_round_spec q e) as (mz & ez & -> & Hez & Hmz & Hpre & _).
  apply binary_round_aux_le; [done..|lia|].
  assert (0 < 2 ^ (e - ez)) by (apply Z.pow_pos_nonneg; lia).
  replace (Ex - ez) with (Ex - e + (e - ez)) by lia.
  rewrite Z.pow_add_r by lia. nia.
Qed.

Lemma binary_round_ge q e N Ex :
  0 < N -> -1074 <= Ex -> 2 ^ 52 <= N \/ Ex = -1074 ->
  e <= Ex -> N * 2 ^ (Ex - e) <= Z.pos q ->
  binary_round prec emax false q e = S754_infinity false \/
  exists m' e',
    binary_round prec emax false q e = S754_finite false m' e' /\
    (Ex < e' \/ (e' = Ex /\ N <= Z.pos m')).
Proof.
  intros HN HEx Hnorm Hle Hq.
  destruct (binary_round_spec q e) as (mz & ez & -> & Hez & Hmz & Hpre & _).
  apply binary_round_aux_ge; [done..|lia|].
  assert (0 < 2 ^ (e - ez)) by (apply Z.pow_pos_nonneg; lia).
  replace (Ex - ez) with (Ex - e + (e - ez)) by lia.
  rewrite Z.pow_add_r by lia. nia.
Qed.

Lemma binary_round_nonzero q e s :
  -1074 <= e -> binary_round prec emax false q e <> S754_zero s.
Proof.
  intros He.
  destruct (binary_round_spec q e) as (mz & ez & -> & Hez & Hmz & Hpre & Hmin).
  apply binary_round_aux_nonzero; [done|]. by apply Hmin.
Qed.

Lemma mul_exponent_ok mx ex my ey :
  canonical_mantissa prec emax mx ex = true ->
  canonical_mantissa prec emax my ey = true ->
  ex + ey <= fexp prec emax (Z.pos (digits2_pos (mx * my)) + (ex + ey)).
Proof.
  intros (Hdx & Hex & Hnx)%canonical_mantissa_inv (Hdy & Hey & Hny)%canonical_mantissa_inv.
  pose proof (digits2_pos_bounds mx) as [Hx _].
  pose proof (digits2_pos_bounds my) as [Hy _].
  set (dx := Z.pos (digits2_pos mx)) in *. set (dy := Z.pos (digits2_pos my)) in *.
  assert (0 < dx /\ 0 < dy) as [? ?] by (unfold dx, dy; lia).
  assert (dx - 1 + (dy - 1) + 1 <= Z.pos (digits2_pos (mx * my))).
  { apply digits2_pos_ge; [lia|]. rewrite Z.pow_add_r, Pos2Z.inj_mul by lia.
    assert (0 < 2 ^ (dx - 1)) by (apply Z.pow_pos_nonneg; lia).
    assert (0 < 2 ^ (dy - 1)) by (apply Z.pow_pos_nonneg; lia). nia. }
  rewrite fexp_unfold. lia.
Qed.

(** ** Positive floats and the factors [1 - s] and [1 + s] *)

Lemma compare_cont_Lt p q : Pos.compare_cont Eq p q = Lt -> Z.pos p < Z.pos q.
Proof.
  change (Pos.compare_cont Eq p q) with (p ?= q)%positive.
  rewrite Pos.compare_lt_iff. lia.
Qed.

Lemma compare_cont_Gt p q : Pos.compare_cont Eq p q = Gt -> Z.pos q < Z.pos p.
Proof.
  change (Pos.compare_cont Eq p q) with (p ?= q)%positive.
  rewrite Pos.compare_gt_iff. lia.
Qed.

Lemma compare_cont_Eq p q : Pos.compare_cont Eq p q = Eq -> Z.pos p = Z.pos q.
Proof.
  change (Pos.compare_cont Eq p q) with (p ?= q)%positive.
  intros ->%Pos.compare_eq. done.
Qed.

Lemma Prim2SF_finite_valid x s m e :
  Prim2SF x = S754_finite s m e ->
  canonical_mantissa prec emax m e = true /\ e <= 971.
Proof.
  intros H. pose proof (Prim2SF_valid x) as Hv. rewrite H in Hv.
  by apply bounded_inv.
Qed.

Lemma Prim2SF_finite_bounds x s m e :
  Prim2SF x = S754_finite s m e ->
  -1074 <= e <= 971 /\ Z.pos m < 2 ^ 53 /\ (-1074 < e -> 2 ^ 52 <= Z.pos m).
Proof.
  intros [(Hd & He & Hn)%canonical_mantissa_inv Hb]%Prim2SF_finite_valid.
  pose proof (digits2_pos_bounds m) as [Hlo Hhi].
  split; [lia|]. split.
  - assert (2 ^ Z.pos (digits2_pos m) <= 2 ^ 53) by (apply Z.pow_le_mono_r; lia). lia.
  - intros He'. destruct Hn as [Hn|]; [|lia]. rewrite Hn in Hlo. exact Hlo.
Qed.

Lemma float_positive_inv x :
  PrimFloat.ltb 0 x = true ->
  (exists m e, Prim2SF x = S754_finite false m e) \/
  Prim2SF x = S754_infinity false.
Proof.
  rewrite FloatAxioms.ltb_spec. unfold SFltb.
  change (Prim2SF 0) with (S754_zero false).
  destruct (Prim2SF x) as [s|[]| |[] m e]; simpl; try done; eauto.
Qed.

(** A float strictly between 0 and 1. *)
Lemma float_fraction_inv s :
  PrimFloat.ltb 0 s = true -> PrimFloat.ltb s 1 = true ->
  exists m e,
    Prim2SF s = S754_finite false m e /\ -1074 <= e <= -52 /\ Z.pos m < 2 ^ (- e).
Proof.
  intros [(m & e & Hs)|Hs]%float_positive_inv; rewrite FloatAxioms.ltb_spec;
    unfold SFltb; rewrite Hs;
    change (Prim2SF 1) with (S754_finite false 4503599627370496 (-52));
    unfold SFcompare; [|done].
  destruct (Prim2SF_finite_bounds _ _ _ _ Hs) as (He & Hm & _).
  destruct (Z.compare_spec e (-52)) as [Heq|Hlt'|Hgt]; [| |done];
    intros Hlt; exists m, e; (split; [done|]).
  - destruct (Pos.compare_cont Eq m 4503599627370496) eqn:Hc; try done.
    apply compare_cont_Lt in Hc. split; [lia|]. rewrite Heq.
    change (2 ^ (- -52)) with 4503599627370496. lia.
  - split; [lia|].
    assert (2 ^ 53 <= 2 ^ (- e)) by (apply Z.pow_le_mono_r; lia).
    lia.
Qed.

(** A float that is at least [2 ^ -52], the spacing of the floats at 1. *)
Lemma float_step_inv s m e :
  Prim2SF s = S754_finite false m e -> e <= -52 ->
  PrimFloat.leb 0x1p-52 s = true -> 2 ^ (-52 - e) <= Z.pos m.
Proof.
  intros Hs He. rewrite FloatAxioms.leb_spec. unfold SFleb. rewrite Hs.
  change (Prim2SF 0x1p-52) with (S754_finite false 4503599627370496 (-104)).
  unfold SFcompare.
  destruct (Prim2SF_finite_bounds _ _ _ _ Hs) as (_ & _ & Hn).
  destruct (Z.compare_spec (-104) e) as [Heq|Hlt|Hgt]; [| |done]; intros Hle.
  - rewrite <- Heq. change (2 ^ (-52 - -104)) with 4503599627370496.
    destruct (Pos.compare_cont Eq 4503599627370496 m) eqn:Hc; try done.
    + apply compare_cont_Eq in Hc. lia.
    + apply compare_cont_Lt in Hc. lia.
  - assert (2 ^ (-52 - e) <= 2 ^ 52) by (apply Z.pow_le_mono_r; lia).
    specialize (Hn ltac:(lia)). lia.
Qed.

(** A finite float in the normal range. *)
Lemma float_normal_inv x :
  PrimFloat.leb 0x1p-1022 x = true -> PrimFloat.ltb x infinity = true ->
  exists m e, Prim2SF x = S754_finite false m e /\ 2 ^ 52 <= Z.pos m.
Proof.
  rewrite FloatAxioms.leb_spec, FloatAxioms.ltb_spec. unfold SFleb, SFltb.
  change (Prim2SF 0x1p-1022) with (S754_finite false 4503599627370496 (-1074)).
  change (Prim2SF infinity) with (S754_infinity false).
  destruct (Prim2SF x) as [s|[]| |[] m e] eqn:Hx; unfold SFcompare; try done.
  destruct (Prim2SF_finite_bounds _ _ _ _ Hx) as (_ & _ & Hn).
  destruct (Z.compare_spec (-1074) e) as [Heq|Hlt|Hgt]; [| |done]; intros Hle _;
    exists m, e; (split; [done|]).
  - change (2 ^ 52) with 4503599627370496.
    destruct (Pos.compare_cont Eq 4503599627370496 m) eqn:Hc; try done.
    + apply compare_cont_Eq in Hc. lia.
    + apply compare_cont_Lt in Hc. lia.
  - apply Hn. lia.
Qed.

(** [1 - s] is a positive float not above 1, and not above [1 - 2 ^ -52]
    when [s] is at least [2 ^ -52]. *)
Lemma one_minus_spec s :
  PrimFloat.ltb 0 s = true -> PrimFloat.ltb s 1 = true ->
  exists m e,
    Prim2SF (1 - s) = S754_finite false m e /\ e <= 0 /\ Z.pos m <= 2 ^ (- e) /\
    (PrimFloat.leb 0x1p-52 s = true ->
     Z.pos m * 2 ^ 52 <= (2 ^ 52 - 1) * 2 ^ (- e)).
Proof.
  intros H0 H1. destruct (float_fraction_inv s H0 H1) as (m & e & Hs & He & Hm).
  pose proof (float_step_inv s m e Hs ltac:(lia)) as Hstep.
  rewrite sub_spec, Hs.
  change (Prim2SF 1) with (S754_finite false 4503599627370496 (-52)).
  unfold SF64sub, SFsub. cbn [cond_Zopp].
  replace (Z.min (-52) e) with e by lia.
  destruct (shl_align_spec 4503599627370496 (-52) e) as (a & Ha & Hav).
  destruct (shl_align_spec m e e) as (b & Hb & Hbv).
  rewrite Z.min_r in Ha, Hav by lia. rewrite Z.min_id in Hb, Hbv.
  rewrite Ha, Hb. cbn [fst].
  rewrite Z.sub_diag, Z.pow_0_r, Z.mul_1_r in Hbv.
  assert (Hpow : 2 ^ (- e) = 4503599627370496 * 2 ^ (-52 - e)).
  { change 4503599627370496 with (2 ^ 52). rewrite <- Z.pow_add_r by lia.
    f_equal. lia. }
  unfold binary_normalize.
  destruct (Z.pos a - Z.pos b) as [|q|q] eqn:Hq; [lia| |lia].
  change (2 ^ 52) with 4503599627370496.
  destruct (binary_round_le q e 4503599627370496 (-52)) as [Hz|(m' & e' & Hr & He' & Hm')];
    [done|lia|lia|lia| |].
  { by apply binary_round_nonzero in Hz; [|lia]. }
  assert (Hpow' : 2 ^ (- e') = 4503599627370496 * 2 ^ (-52 - e')).
  { change 4503599627370496 with (2 ^ 52). rewrite <- Z.pow_add_r by lia.
    f_equal. lia. }
  exists m', e'. split; [done|]. split; [lia|]. split; [lia|].
  intros Hge. specialize (Hstep Hge).
  destruct (binary_round_le q e 4503599627370495 (-52)) as [Hz|(m2 & e2 & Hr2 & _ & Hm2)];
    [done|lia|lia|lia| |].
  { by apply binary_round_nonzero in Hz; [|lia]. }
  rewrite Hr in Hr2. injection Hr2 as <- <-. lia.
Qed.

(** [1 + s] is a finite float not below 1, and not below [1 + 2 ^ -52]
    when [s] is at least [2 ^ -52]. *)
Lemma one_plus_spec s :
  PrimFloat.ltb 0 s = true -> PrimFloat.ltb s 1 = true ->
  exists m e,
    Prim2SF (1 + s) = S754_finite false m e /\ e <= 0 /\ 2 ^ (- e) <= Z.pos m /\
    (PrimFloat.leb 0x1p-52 s = true ->
     (2 ^ 52 + 1) * 2 ^ (- e) <= Z.pos m * 2 ^ 52).
Proof.
  intros H0 H1. destruct (float_fraction_inv s H0 H1) as (m & e & Hs & He & Hm).
  pose proof (float_step_inv s m e Hs ltac:(lia)) as Hstep.
  pose proof (Prim2SF_finite_bounds (1 + s) false) as Hvalid.
  rewrite add_spec, Hs in Hvalid. rewrite add_spec, Hs.
  change (Prim2SF 1) with (S754_finite false 4503599627370496 (-52)) in *.
  unfold SF64add, SFadd in *. cbn [cond_Zopp] in *.
  replace (Z.min (-52) e) with e in * by lia.
  destruct (shl_align_spec 4503599627370496 (-52) e) as (a & Ha & Hav).
  destruct (shl_align_spec m e e) as (b & Hb & Hbv).
  rewrite Z.min_r in Ha, Hav by lia. rewrite Z.min_id in Hb, Hbv.
  rewrite Ha, Hb in *. cbn [fst] in *.
  rewrite Z.sub_diag, Z.pow_0_r, Z.mul_1_r in Hbv.
  assert (Hpow : 2 ^ (- e) = 4503599627370496 * 2 ^ (-52 - e)).
  { change 4503599627370496 with (2 ^ 52). rewrite <- Z.pow_add_r by lia.
    f_equal. lia. }
  assert (Hpow2 : 2 ^ (-51 - e) = 2 * 2 ^ (-52 - e)).
  { replace (-51 - e) with (Z.succ (-52 - e)) by lia. by rewrite Z.pow_succ_r by lia. }
  assert (0 < 2 ^ (-52 - e)) by (apply Z.pow_pos_nonneg; lia).
  unfold binary_normalize in *.
  destruct (Z.pos a + Z.pos b) as [|q|q] eqn:Hq; [lia| |lia].
  change (2 ^ 52) with 4503599627370496 in *.
  change (2 ^ 53) with 9007199254740992 in *.
  destruct (binary_round_le q e 4503599627370496 (-51)) as [Hz|(m' & e' & Hr & He' & _)];
    [done|lia|lia|lia| |].
  { by apply binary_round_nonzero in Hz; [|lia]. }
  destruct (Hvalid m' e' Hr) as (_ & _ & Hnorm).
  destruct (binary_round_ge q e 4503599627370496 (-52)) as [Hi|(m2 & e2 & Hr2 & Hge)];
    [done|lia|by left|lia|lia| |].
  { rewrite Hr in Hi. discriminate. }
  rewrite Hr in Hr2. injection Hr2 as <- <-.
  exists m', e'. split; [done|]. split; [lia|]. split.
  - destruct Hge as [Hge|[-> Hge]].
    + assert (e' = -51) as -> by lia. specialize (Hnorm ltac:(lia)).
      change (2 ^ (- -51)) with 2251799813685248. lia.
    + change (2 ^ (- -52)) with 4503599627370496. lia.
  - intros Hs52. specialize (Hstep Hs52).
    destruct (binary_round_ge q e 4503599627370497 (-52)) as [Hi|(m2 & e2 & Hr2 & Hgt)];
      [done|lia|left; lia|lia|lia| |].
    { rewrite Hr in Hi. discriminate. }
    rewrite Hr in Hr2. injection Hr2 as <- <-.
    destruct Hgt as [Hgt|[-> Hgt]].
    + assert (e' = -51) as -> by lia. specialize (Hnorm ltac:(lia)).
      change (2 ^ (- -51)) with 2251799813685248. lia.
    + change (2 ^ (- -52)) with 4503599627370496. lia.
Qed.

(** ** Multiplying a positive float by a factor below or above one *)

Lemma mul_factor_le x c mc ec :
  PrimFloat.ltb 0 x = true ->
  Prim2SF c = S754_finite false mc ec -> ec <= 0 -> Z.pos mc <= 2 ^ (- ec) ->
  PrimFloat.leb (x * c) x = true.
Proof.
  intros Hx Hc Hec Hmc. rewrite FloatAxioms.leb_spec, mul_spec, Hc.
  destruct (Prim2SF_finite_valid _ _ _ _ Hc) as [Hcanc _].
  destruct (float_positive_inv x Hx) as [(mx & ex & Hsx)|Hsx]; rewrite Hsx; [|done].
  destruct (Prim2SF_finite_valid _ _ _ _ Hsx) as [Hcanx _].
  destruct (Prim2SF_finite_bounds _ _ _ _ Hsx) as (Hex & Hmx & _).
  unfold SF64mul, SFmul. cbn [xorb].
  assert (0 < 2 ^ (- ec)) by (apply Z.pow_pos_nonneg; lia).
  destruct (binary_round_aux_le (mx * mc) (ex + ec) (Z.pos mx) ex)
    as [->|(m' & e' & -> & He' & Hm')]; [by apply mul_exponent_ok|done|done|lia| |done|].
  { replace (ex - (ex + ec)) with (- ec) by lia. rewrite Pos2Z.inj_mul. nia. }
  unfold SFleb, SFcompare.
  destruct (Z.compare_spec e' ex) as [->|?|?]; [|done|lia].
  rewrite Z.sub_diag, Z.pow_0_r, Z.mul_1_r in Hm'.
  destruct (Pos.compare_cont Eq m' mx) eqn:Hcmp; [done|done|].
  apply compare_cont_Gt in Hcmp. lia.
Qed.

Lemma mul_factor_ge x c mc ec :
  PrimFloat.ltb 0 x = true ->
  Prim2SF c = S754_finite false mc ec -> ec <= 0 -> 2 ^ (- ec) <= Z.pos mc ->
  PrimFloat.leb x (x * c) = true.
Proof.
  intros Hx Hc Hec Hmc. rewrite FloatAxioms.leb_spec, mul_spec, Hc.
  destruct (Prim2SF_finite_valid _ _ _ _ Hc) as [Hcanc _].
  destruct (float_positive_inv x Hx) as [(mx & ex & Hsx)|Hsx]; rewrite Hsx; [|done].
  destruct (Prim2SF_finite_valid _ _ _ _ Hsx) as [Hcanx _].
  destruct (canonical_mantissa_inv _ _ Hcanx) as (Hdx & Hex & Hnx).
  pose proof (digits2_pos_bounds mx) as [Hlo _].
  unfold SF64mul, SFmul. cbn [xorb].
  assert (0 < 2 ^ (- ec)) by (apply Z.pow_pos_nonneg; lia).
  destruct (binary_round_aux_ge (mx * mc) (ex + ec) (Z.pos mx) ex)
    as [->|(m' & e' & -> & He')]; [by apply mul_exponent_ok|done|done| |lia| |done|].
  { destruct Hnx as [Hnx|Hnx]; [left|by right]. by rewrite Hnx in Hlo. }
  { replace (ex - (ex + ec)) with (- ec) by lia. rewrite Pos2Z.inj_mul. nia. }
  unfold SFleb, SFcompare.
  destruct (Z.compare_spec ex e') as [->|?|?]; [|done|lia].
  destruct He' as [?|[_ He']]; [lia|].
  destruct (Pos.compare_cont Eq mx m') eqn:Hcmp; [done|done|].
  apply compare_cont_Gt in Hcmp. lia.
Qed.

Lemma mul_factor_lt x c mx ex mc ec :
  Prim2SF x = S754_finite false mx ex -> 2 ^ 52 <= Z.pos mx ->
  Prim2SF c = S754_finite false mc ec -> ec <= 0 ->
  Z.pos mc * 2 ^ 52 <= (2 ^ 52 - 1) * 2 ^ (- ec) ->
  PrimFloat.ltb (x * c) x = true.
Proof.
  intros Hsx Hnx Hc Hec Hmc. rewrite FloatAxioms.ltb_spec, mul_spec, Hc, Hsx.
  destruct (Prim2SF_finite_valid _ _ _ _ Hc) as [Hcanc _].
  destruct (Prim2SF_finite_valid _ _ _ _ Hsx) as [Hcanx _].
  destruct (Prim2SF_finite_bounds _ _ _ _ Hsx) as (Hex & Hmx & _).
  unfold SF64mul, SFmul. cbn [xorb].
  assert (0 < 2 ^ (- ec)) by (apply Z.pow_pos_nonneg; lia).
  change (2 ^ 52) with 4503599627370496 in *.
  destruct (binary_round_aux_le (mx * mc) (ex + ec) (Z.pos mx - 1) ex)
    as [->|(m' & e' & -> & He' & Hm')]; [by apply mul_exponent_ok|lia|done|lia| |done|].
  { replace (ex - (ex + ec)) with (- ec) by lia. rewrite Pos2Z.inj_mul. nia. }
  unfold SFltb, SFcompare.
  destruct (Z.compare_spec e' ex) as [->|?|?]; [|done|lia].
  rewrite Z.sub_diag, Z.pow_0_r, Z.mul_1_r in Hm'.
  destruct (Pos.compare_cont Eq m' mx) eqn:Hcmp; [|done|].
  - apply compare_cont_Eq in Hcmp. lia.
  - apply compare_cont_Gt in Hcmp. lia.
Qed.

Lemma mul_factor_gt x c mx ex mc ec :
  Prim2SF x = S754_finite false mx ex -> 2 ^ 52 <= Z.pos mx ->
  Prim2SF c = S754_finite false mc ec -> ec <= 0 ->
  (2 ^ 52 + 1) * 2 ^ (- ec) <= Z.pos mc * 2 ^ 52 ->
  PrimFloat.ltb x (x * c) = true.
Proof.
  intros Hsx Hnx Hc Hec Hmc. rewrite FloatAxioms.ltb_spec, mul_spec, Hc, Hsx.
  destruct (Prim2SF_finite_valid _ _ _ _ Hc) as [Hcanc _].
  destruct (Prim2SF_finite_valid _ _ _ _ Hsx) as [Hcanx _].
  destruct (Prim2SF_finite_bounds _ _ _ _ Hsx) as (Hex & Hmx & _).
  unfold SF64mul, SFmul. cbn [xorb].
  assert (0 < 2 ^ (- ec)) by (apply Z.pow_pos_nonneg; lia).
  change (2 ^ 52) with 4503599627370496 in *.
  destruct (binary_round_aux_ge (mx * mc) (ex + ec) (Z.pos mx + 1) ex)
    as [->|(m' & e' & -> & He')]; [by apply mul_exponent_ok|lia|lia|left; lia|lia| |done|].
  { replace (ex - (ex + ec)) with (- ec) by lia. rewrite Pos2Z.inj_mul. nia. }
  unfold SFltb, SFcompare.
  destruct (Z.compare_spec ex e') as [->|?|?]; [|done|lia].
  destruct He' as [?|[_ He']]; [lia|].
  destruct (Pos.compare_cont Eq mx m') eqn:Hcmp; [|done|].
  - apply compare_cont_Eq in Hcmp. lia.
  - apply compare_cont_Gt in Hcmp. lia.
Qed.

(** With a positive [x] and [s] strictly between 0 and 1, the binary64
    product [x * (1 - s)] is not above [x] and [x * (1 + s)] is not below
    it. *)
Lemma mul_one_minus_le x s :
  PrimFloat.ltb 0 x = true -> PrimFloat.ltb 0 s = true -> PrimFloat.ltb s 1 = true ->
  PrimFloat.leb (x * (1 - s)) x = true.
Proof.
  intros Hx H0 H1. destruct (one_minus_spec s H0 H1) as (m & e & Hc & He & Hm & _).
  by apply (mul_factor_le x _ m e).
Qed.

Lemma mul_one_plus_ge x s :
  PrimFloat.ltb 0 x = true -> PrimFloat.ltb 0 s = true -> PrimFloat.ltb s 1 = true ->
  PrimFloat.leb x (x * (1 + s)) = true.
Proof.
  intros Hx H0 H1. destruct (one_plus_spec s H0 H1) as (m & e & Hc & He & Hm & _).
  by apply (mul_factor_ge x _ m e).
Qed.

(** The two products are strictly on their side of [x] when [x] is a finite
    float of the normal range and [s] is at least [2 ^ -52]. *)
Lemma mul_one_minus_lt x s :
  PrimFloat.leb 0x1p-1022 x = true -> PrimFloat.ltb x infinity = true ->
  PrimFloat.ltb 0 s = true -> PrimFloat.ltb s 1 = true ->
  PrimFloat.leb 0x1p-52 s = true ->
  PrimFloat.ltb (x * (1 - s)) x = true.
Proof.
  intros Hn Hf H0 H1 Hs. destruct (float_normal_inv x Hn Hf) as (mx & ex & Hx & Hmx).
  destruct (one_minus_spec s H0 H1) as (m & e & Hc & He & _ & Hm).
  apply (mul_factor_lt x _ mx ex m e); auto.
Qed.

Lemma mul_one_plus_gt x s :
  PrimFloat.leb 0x1p-1022 x = true -> PrimFloat.ltb x infinity = true ->
  PrimFloat.ltb 0 s = true -> PrimFloat.ltb s 1 = true ->
  PrimFloat.leb 0x1p-52 s = true ->
  PrimFloat.ltb x (x * (1 + s)) = true.
Proof.
  intros Hn Hf H0 H1 Hs. destruct (float_normal_inv x Hn Hf) as (mx & ex & Hx & Hmx).
  destruct (one_plus_spec s H0 H1) as (m & e & Hc & He & _ & Hm).
  apply (mul_factor_gt x _ mx ex m e); auto.
Qed.

End Binary64.

(** * The price levels around the entry *)

Lemma mensagem_de_not_empty s a m c : mensagem_de s a m c <> "".
Proof. unfold mensagem_de. simpl. discriminate. Qed.

(** Over the rationals the two levels are strictly on their side of the
    entry. *)
Lemma exact_levels_compra (entry sd td : Q) :
  (0 < entry)%Q -> (0 < sd)%Q -> (0 < td)%Q ->
  (stop_loss_level Compra entry sd < entry)%Q /\
  (entry < take_profit_level Compra entry sd td)%Q.
Proof. unfold stop_loss_level, take_profit_level. simpl. intros. split; nra. Qed.

Lemma exact_levels_venda (entry sd td : Q) :
  (0 < entry)%Q -> (0 < sd)%Q ->
  (take_profit_level Venda entry sd td < entry)%Q /\
  (entry < stop_loss_level Venda entry sd)%Q.
Proof. unfold stop_loss_level, take_profit_level. simpl. intros. split; nra. Qed.




(** The side conditions of the strict ordering are needed: a deviation
    below 2^-52 can vanish in [1 + dev], a subnormal entry can absorb a
    deviation of 2^-52, and an infinite entry absorbs any. *)
Lemma strict_levels_side_conditions :
  take_profit_level Compra 1%float 0x1p-53%float 0x1p-53%float = 1%float /\
  stop_loss_level Compra 0x1p-1023%float 0x1p-52%float = 0x1p-1023%float /\
  stop_loss_level Compra infinity 0.5%float = infinity.
Proof. repeat split. Qed.

(** * The fetcher *)

Section FetcherFacts.
Context {yf : YFinance}.

Lemma obter_dados_raise ticker tf w e :
  download ticker (periodo tf) tf = Raise e ->
  obter_dados ticker tf w =
    (Ret None,
     add_output
       [Log INFO ("Obtendo dados para " +:+ ticker +:+ " com timeframe " +:+ tf);
        Log ERROR ("Erro ao obter dados para " +:+ ticker +:+ ": " +:+ exn_str e)] w).
Proof.
  intros H. unfold obter_dados, periodo in *. munfold. simpl.
  rewrite H. simpl. by autorewrite with world.
Qed.

Lemma obter_dados_ret ticker tf w d :
  download ticker (periodo tf) tf = Ret d ->
  let l := fresh (dom (heap w)) in
  obter_dados ticker tf w =
    if empty d then
      (Ret None,
       add_output
         [Log INFO ("Obtendo dados para " +:+ ticker +:+ " com timeframe " +:+ tf);
          Log WARNING ("Nenhum dado retornado para " +:+ ticker
                        +:+ " com timeframe " +:+ tf)]
         (set_frame l d w))
    else
      (Ret (Some l),
       add_output
         [Log INFO ("Obtendo dados para " +:+ ticker +:+ " com timeframe " +:+ tf)]
         (set_frame l (dropna d) w)).
Proof.
  intros H l. unfold obter_dados, periodo, alloc in *. munfold. simpl.
  rewrite H. simpl. fold l. autorewrite with world.
  destruct (empty d); simpl; by autorewrite with world.
Qed.
End FetcherFacts.

(** C7: a call of the fetcher always returns, for every symbol and
    timeframe and whatever the download does; when the download raises the
    result is absent, and when it gives an empty frame the result is absent
    and the warning is logged. *)
Theorem fetcher_never_raises (yf : YFinance) ticker tf w :
  exists r w',
    obter_dados ticker tf w = (Ret r, w') /\
    (forall e, download ticker (periodo tf) tf = Raise e -> r = None) /\
    (forall d, download ticker (periodo tf) tf = Ret d -> empty d = true ->
       r = None /\
       output w' = output w ++
         [Log INFO ("Obtendo dados para " +:+ ticker +:+ " com timeframe " +:+ tf);
          Log WARNING ("Nenhum dado retornado para " +:+ ticker
                        +:+ " com timeframe " +:+ tf)]).
Proof.
  destruct (download ticker (periodo tf) tf) as [d|e] eqn:Hd.
  - pose proof (obter_dados_ret ticker tf w d Hd) as Heq. simpl in Heq.
    destruct (empty d) eqn:He.
    + do 2 eexists. split; [exact Heq|]. split; [done|]. by intros ? [= <-] _.
    + do 2 eexists. split; [exact Heq|]. split; [done|]. intros ? [= <-] ?. congruence.
  - do 2 eexists. split; [by apply obter_dados_raise|]. split; [done|]. done.
Qed.

Example obter_dados_falha :
  fst (obter_dados (yf:=yf_falha) "EURUSD=X" "15m" (mkWorld ∅ [])) = Ret None.
Proof. reflexivity. Qed.

Example obter_dados_vazio :
  fst (obter_dados (yf:=yf_vazio) "EURUSD=X" "15m" (mkWorld ∅ [])) = Ret None /\
  output (snd (obter_dados (yf:=yf_vazio) "EURUSD=X" "15m" (mkWorld ∅ []))) =
    [Log INFO "Obtendo dados para EURUSD=X com timeframe 15m";
     Log WARNING "Nenhum dado retornado para EURUSD=X com timeframe 15m"].
Proof. split; reflexivity. Qed.

(** * Two calls *)

Section TwoCalls.
Context {ta : TaLib}.

Lemma computed_functional df d1 d2 : computed df d1 -> computed df d2 -> d1 = d2.
Proof.
  intros (c1 & ? & ? & ? & ? & ? & ? & Hc1 & A1 & A2 & A3 & A4 & A5 & ->)
         (c2 & ? & ? & ? & ? & ? & ? & Hc2 & B1 & B2 & B3 & B4 & B5 & ->).
  rewrite Hc1 in Hc2. injection Hc2 as <-. congruence.
Qed.

(** The indicator block writes to the frame it is given and to no other. *)
Lemma calcular_indicadores_other l l' w r w1 :
  l <> l' -> calcular_indicadores l w = (r, w1) -> deref w1 l' = deref w l'.
Proof.
  intros Hne. unfold calcular_indicadores. munfold. intros H. simpl in H.
  repeat match type of H with
  | context [match ?x with Ret _ => _ | Raise _ => _ end] =>
      destruct x; simpl in H; autorewrite with world in H
  end; injection H as <- <-; by rewrite ?deref_set_frame_ne.
Qed.

Lemma analisar_try_raise l a m sd td w e w1 :
  calcular_indicadores l w = (Raise e, w1) ->
  analisar_try l a m sd td w = (Raise e, w1).
Proof. intros H. unfold analisar_try. munfold. by rewrite H. Qed.

(** The result of a call is a function of the frame the reference holds. *)
Lemma analisar_ativo_result_by_frame l l' w w' a m sd td :
  deref w l = deref w' l' ->
  fst (analisar_ativo (Some l) a m sd td w) = fst (analisar_ativo (Some l') a m sd td w').
Proof.
  intros Heq.
  destruct (Nat.lt_ge_cases (nrows (deref w l)) 21) as [Hn|Hn].
  { rewrite !analisar_ativo_short; [done|by rewrite <- Heq|done]. }
  rewrite !analisar_ativo_long by (by rewrite <- ?Heq).
  set (w0 := add_output [msg_analisando a m] w).
  set (w0' := add_output [msg_analisando a m] w').
  assert (deref w0 l = deref w0' l') as Heq0 by (by autorewrite with world).
  assert (forall df', computed (deref w0 l) df' ->
            fst (let (r, w2) := analisar_try l a m sd td w0 in
                 match r with Ret r => (Ret r, w2)
                 | Raise e => (Ret None, add_output [msg_erro a e] w2) end) =
            fst (let (r, w2) := analisar_try l' a m sd td w0' in
                 match r with Ret r => (Ret r, w2)
                 | Raise e => (Ret None, add_output [msg_erro a e] w2) end))
    as Hcomputed.
  { intros df' Hc. assert (computed (deref w0' l') df') as Hc' by (by rewrite <- Heq0).
    destruct (decide (nrows (dropna df') = 0)) as [H0|H0].
    - by rewrite (analisar_try_empty _ _ _ _ _ _ _ Hc H0),
        (analisar_try_empty _ _ _ _ _ _ _ Hc' H0).
    - destruct (analisar_try_last _ _ _ a m sd td Hc H0)
        as (row & c & e & r & Hrow & Hclose & Hema & Hrsi & ->).
      destruct (analisar_try_last _ _ _ a m sd td Hc' H0)
        as (row' & c' & e' & r' & Hrow' & Hclose' & Hema' & Hrsi' & ->).
      rewrite Hrow in Hrow'. injection Hrow' as <-.
      assert (c' = c) as -> by congruence.
      assert (e' = e) as -> by congruence.
      assert (r' = r) as -> by congruence.
      by destruct (direcao c e r). }
  destruct (calcular_indicadores l w0) as [[[]|e1] w1] eqn:H1.
  { apply calcular_indicadores_inv in H1 as (df' & Hc & _). by apply (Hcomputed df'). }
  destruct (calcular_indicadores l' w0') as [[[]|e2] w2] eqn:H2.
  { apply calcular_indicadores_inv in H2 as (df' & Hc & _).
    apply (Hcomputed df'). by rewrite Heq0. }
  by rewrite (analisar_try_raise _ _ _ _ _ _ _ _ H1),
    (analisar_try_raise _ _ _ _ _ _ _ _ H2).
Qed.

(** A call writes to the frame it is given and to no other. *)
Lemma analisar_ativo_other l l' w a m sd td :
  l <> l' -> deref (snd (analisar_ativo (Some l) a m sd td w)) l' = deref w l'.
Proof.
  intros Hne.
  destruct (Nat.lt_ge_cases (nrows (deref w l)) 21) as [Hn|Hn].
  { by rewrite analisar_ativo_short. }
  rewrite analisar_ativo_long by done.
  set (w0 := add_output [msg_analisando a m] w).
  destruct (calcular_indicadores l w0) as [[[]|e1] w1] eqn:H1.
  - apply calcular_indicadores_inv in H1 as (df' & Hc & _).
    destruct (analisar_ativo_frame l w df' a m sd td) as (r & evs & Hrun);
      [done|by autorewrite with world in Hc|].
    rewrite analisar_ativo_long in Hrun by done. fold w0 in Hrun. rewrite Hrun.
    simpl. autorewrite with world. by apply deref_set_frame_ne.
  - rewrite (analisar_try_raise _ _ _ _ _ _ _ _ H1). simpl.
    autorewrite with world.
    by rewrite (calcular_indicadores_other _ _ _ _ _ Hne H1).
Qed.
End TwoCalls.

(** With a library whose MACD line has no value on the first 25 bars, a
    frame of at most 45 rows whose indicators are computed is left with
    fewer than 21 rows, and the next call on it stops at the length guard. *)
Lemma second_call_on_short_rest (ta : TaLib) w l df' a m sd td :
  macd_warmup ta ->
  21 <= nrows (deref w l) <= 45 ->
  computed (deref w l) df' ->
  analisar_ativo (Some l) a m sd td (snd (analisar_ativo (Some l) a m sd td w)) =
    (Ret None,
     add_output [msg_analisando a m; msg_insuficientes a]
       (snd (analisar_ativo (Some l) a m sd td w))).
Proof.
  intros Hwarm [Hlo Hhi] Hc. apply analisar_ativo_short.
  destruct (analisar_ativo_frame l w df' a m sd td) as (r & evs & ->); [done..|].
  simpl. autorewrite with world.
  pose proof (computed_dropna_nrows Hwarm _ _ Hc). lia.
Qed.

(** C8, as stated, fails: the second call on the same frame sees what the
    first call left of it.  On [mundo_venda] the first call returns the Sell
    signal and leaves 5 of the 30 rows; the second call returns no signal. *)
Lemma second_call_on_same_frame_differs :
  let call := analisar_ativo (ta:=TaRef.lib) (Some 1%positive) "EURUSD=X" "Forex"
                0.003 0.003 in
  fst (call mundo_venda) = Ret (Some sinal_venda) /\
  nrows (deref (snd (call mundo_venda)) 1%positive) = 5 /\
  fst (call (snd (call mundo_venda))) = Ret None /\
  fst (call mundo_venda) <> fst (call (snd (call mundo_venda))).
Proof.
  cbv zeta.
  assert (fst (analisar_ativo (ta:=TaRef.lib) (Some 1%positive) "EURUSD=X" "Forex"
                 0.003 0.003 mundo_venda) = Ret (Some sinal_venda)) as H1
    by (vm_compute; reflexivity).
  assert (fst (analisar_ativo (ta:=TaRef.lib) (Some 1%positive) "EURUSD=X" "Forex"
                 0.003 0.003
                 (snd (analisar_ativo (ta:=TaRef.lib) (Some 1%positive) "EURUSD=X" "Forex"
                         0.003 0.003 mundo_venda))) = Ret None) as H2
    by (vm_compute; reflexivity).
  split; [exact H1|]. split; [vm_compute; reflexivity|]. split; [exact H2|].
  rewrite H1, H2. discriminate.
Qed.

(** C8, as amended: two calls with the same names and deviations on two
    distinct frames that hold the same data, the second call made in the
    world the first one left, return the same result, signal for signal and
    field for field. *)
Theorem copies_give_identical_results (ta : TaLib) w l1 l2 a m sd td :
  l1 <> l2 ->
  deref w l1 = deref w l2 ->
  fst (analisar_ativo (Some l2) a m sd td (snd (analisar_ativo (Some l1) a m sd td w)))
  = fst (analisar_ativo (Some l1) a m sd td w).
Proof.
  intros Hne Heq. symmetry. apply analisar_ativo_result_by_frame.
  by rewrite analisar_ativo_other.
Qed.

Lemma copies_give_identical_results_witness :
  fst (analisar_ativo (ta:=TaRef.lib) (Some 2%positive) "EURUSD=X" "Forex" 0.003 0.003
         (snd (analisar_ativo (ta:=TaRef.lib) (Some 1%positive) "EURUSD=X" "Forex"
                 0.003 0.003 mundo_copias)))
  = fst (analisar_ativo (ta:=TaRef.lib) (Some 1%positive) "EURUSD=X" "Forex"
           0.003 0.003 mundo_copias).
Proof.
  refine (copies_give_identical_results TaRef.lib mundo_copias 1%positive 2%positive
            _ _ _ _ _ _).
  - discriminate.
  - reflexivity.
Defined.

Example copies_both_sell :
  fst (analisar_ativo (ta:=TaRef.lib) (Some 2%positive) "EURUSD=X" "Forex" 0.003 0.003
         (snd (analisar_ativo (ta:=TaRef.lib) (Some 1%positive) "EURUSD=X" "Forex"
                 0.003 0.003 mundo_copias)))
  = Ret (Some sinal_venda).
Proof. vm_compute. reflexivity. Qed.

(** * What a call leaves behind *)

Ltac in_cols := repeat first [apply list_elem_of_here | apply list_elem_of_further].

Section Outcomes.
Context {ta : TaLib}.

(** The indicator block leaves the world as it was, or with the frame at
    [l] changed in its indicator columns only. *)
Lemma calcular_indicadores_world l w r w1 :
  calcular_indicadores l w = (r, w1) ->
  w1 = w \/
  exists d, w1 = set_frame l d w /\ nrows d = nrows (deref w l) /\
    forall k, k ∉ indicator_columns -> columns d !! k = columns (deref w l) !! k.
Proof.
  unfold calcular_indicadores. munfold. intros H. simpl in H.
  repeat match type of H with
  | context [match ?x with Ret _ => _ | Raise _ => _ end] =>
      destruct x; simpl in H; autorewrite with world in H
  end; injection H as <- <-; first [by left | right];
  (eexists; split; [reflexivity|]; split; [reflexivity|]);
  intros k Hk; rewrite ?setitem_lookup_ne; try done;
  intros ->; apply Hk; unfold indicator_columns; in_cols.
Qed.

Lemma plain_logs_no_notification evs :
  Forall (fun ev => is_plain_log ev = true) evs ->
  List.filter is_notification evs = [] /\
  List.filter is_fetch_line evs = [] /\
  List.filter is_signal_line evs = [].
Proof.
  induction 1 as [|ev evs Hev _ (IH1 & IH2 & IH3)]; [done|].
  unfold is_plain_log, is_notification in *. simpl.
  destruct (is_log ev), (is_fetch_line ev), (is_signal_line ev); done.
Qed.

(** Every way a call can end. *)
Lemma analisar_ativo_cases df a m sd td w :
  exists r evs w0,
    analisar_ativo df a m sd td w = (Ret r, add_output evs w0) /\
    (w0 = w \/ exists l d, df = Some l /\ w0 = set_frame l d w) /\
    ((r = None /\ Forall (fun ev => is_plain_log ev = true) evs) \/
     (exists sig, r = Some sig /\ evs = msg_analisando a m :: telegram (mensagem sig))).
Proof.
  destruct df as [l|].
  2:{ rewrite analisar_ativo_None. do 3 eexists. split; [done|].
      split; [by left|]. left. split; [done|]. by repeat constructor. }
  destruct (Nat.lt_ge_cases (nrows (deref w l)) 21) as [Hn|Hn].
  { rewrite analisar_ativo_short by done. do 3 eexists. split; [done|].
    split; [by left|]. left. split; [done|]. by repeat constructor. }
  rewrite analisar_ativo_long by done.
  set (w0 := add_output [msg_analisando a m] w).
  destruct (calcular_indicadores l w0) as [[[]|e] w1] eqn:Hcalc.
  - apply calcular_indicadores_inv in Hcalc as (df' & Hc & _).
    destruct (decide (nrows (dropna df') = 0)) as [H0|H0].
    + rewrite (analisar_try_empty _ _ _ _ _ _ _ Hc H0). unfold w0.
      autorewrite with world. do 3 eexists. split; [done|].
      split; [right; by do 2 eexists|]. left. split; [done|]. by repeat constructor.
    + destruct (analisar_try_last _ _ _ a m sd td Hc H0)
        as (row & c & e & r & _ & _ & _ & _ & ->). unfold w0.
      destruct (direcao c e r); autorewrite with world.
      * do 3 eexists. split; [done|]. split; [right; by do 2 eexists|].
        left. split; [done|]. by repeat constructor.
      * do 3 eexists. split; [done|]. split; [right; by do 2 eexists|].
        right. by eexists.
      * do 3 eexists. split; [done|]. split; [right; by do 2 eexists|].
        right. by eexists.
  - rewrite (analisar_try_raise _ _ _ _ _ _ _ _ Hcalc).
    apply calcular_indicadores_world in Hcalc as [->|(d & -> & _)]; unfold w0;
      autorewrite with world; do 3 eexists; (split; [done|]).
    + split; [by left|]. left. split; [done|]. by repeat constructor.
    + split; [right; by do 2 eexists|]. left. split; [done|]. by repeat constructor.
Qed.
End Outcomes.

(** X1: a call that returns a signal has called the notifier exactly once,
    before returning, with the signal's own message; the signal carries the
    instrument name it was called with, and its message names the
    instrument, the group, the direction and the entry to four decimals.
    The call writes these three lines and no other. *)
Theorem signal_is_notified_once (ta : TaLib) df a m sd td w sig w' :
  analisar_ativo df a m sd td w = (Ret (Some sig), w') ->
  ativo sig = a /\
  mensagem sig =
    "Sinal para " +:+ a +:+ " (" +:+ m +:+ "): " +:+ sinal_str (sinal sig)
      +:+ " @ " +:+ format_4f (preco_entrada sig) /\
  output w' = output w ++
    [Log INFO ("Analisando " +:+ a +:+ " do mercado " +:+ m);
     Log INFO ("Enviando mensagem para Telegram: " +:+ mensagem sig);
     Stdout ("Mensagem para Telegram (simulado): " +:+ mensagem sig)].
Proof.
  intros H. apply analisar_ativo_Some_inv in H
    as (l & df' & row & c & e & r & _ & _ & _ & _ & _ & _ & _ & _ & _ & -> & ->).
  done.
Qed.

Lemma signal_is_notified_once_witness :
  ativo sinal_venda = "EURUSD=X" /\
  mensagem sinal_venda = "Sinal para EURUSD=X (Forex): Venda @ 123.7500" /\
  output (snd (analisar_ativo (ta:=TaRef.lib) (Some 1%positive) "EURUSD=X" "Forex"
                 0.003 0.003 mundo_venda)) =
    [Log INFO "Analisando EURUSD=X do mercado Forex";
     Log INFO "Enviando mensagem para Telegram: Sinal para EURUSD=X (Forex): Venda @ 123.7500";
     Stdout "Mensagem para Telegram (simulado): Sinal para EURUSD=X (Forex): Venda @ 123.7500"].
Proof.
  exact (signal_is_notified_once TaRef.lib _ _ _ _ _ _ _ _ mundo_venda_run).
Defined.


Lemma quadro_21_run :
  analisar_ativo (ta:=TaRef.lib) (Some 1%positive) "BTC-USD" "Criptomoedas" 0.003 0.003
    (mkWorld {[ 1%positive := quadro_21 ]} []) =
  (Ret None,
   snd (analisar_ativo (ta:=TaRef.lib) (Some 1%positive) "BTC-USD" "Criptomoedas"
          0.003 0.003 (mkWorld {[ 1%positive := quadro_21 ]} []))).
Proof. vm_compute. reflexivity. Defined.


(** X3: the entry of a returned signal is a number, never NaN, and the
    frame the call leaves at the caller's reference has at least one row and
    no missing value in any column. *)
Theorem signal_entry_is_a_number (ta : TaLib) df a m sd td w sig w' :
  analisar_ativo df a m sd td w = (Ret (Some sig), w') ->
  PrimFloat.is_nan (preco_entrada sig) = false /\
  exists l,
    df = Some l /\
    0 < nrows (deref w' l) /\
    forall k c i, columns (deref w' l) !! k = Some c -> i < nrows (deref w' l) ->
                  notna c i = true.
Proof.
  intros H. apply analisar_ativo_Some_inv in H
    as (l & df' & row & c & e & r & -> & _ & Hc & H0 & Hrow & Hclose & _ & _ & _ & -> & ->).
  split.
  - destruct (iloc_last_dropna df' H0) as (row' & Hrow' & Hcells).
    rewrite Hrow in Hrow'. injection Hrow' as <-.
    destruct (Hcells "Close") as (x & Hx & Hnan);
      [eapply computed_columns; [done|by left]|].
    simpl. congruence.
  - exists l. autorewrite with world. split; [done|]. split; [lia|].
    intros k col i Hk Hi. apply notna_Some. by eapply dropna_cell.
Qed.

Lemma signal_entry_is_a_number_witness :
  PrimFloat.is_nan (preco_entrada sinal_venda) = false /\
  exists l,
    Some 1%positive = Some l /\
    0 < nrows (deref (snd (analisar_ativo (ta:=TaRef.lib) (Some 1%positive)
                             "EURUSD=X" "Forex" 0.003 0.003 mundo_venda)) l) /\
    forall k c i,
      columns (deref (snd (analisar_ativo (ta:=TaRef.lib) (Some 1%positive)
                             "EURUSD=X" "Forex" 0.003 0.003 mundo_venda)) l) !! k = Some c ->
      i < nrows (deref (snd (analisar_ativo (ta:=TaRef.lib) (Some 1%positive)
                              "EURUSD=X" "Forex" 0.003 0.003 mundo_venda)) l) ->
      notna c i = true.
Proof.
  exact (signal_entry_is_a_number TaRef.lib _ _ _ _ _ _ _ _ mundo_venda_run).
Defined.


Lemma ta_falha_rsi_run :
  analisar_try (ta:=ta_falha_rsi) 1%positive "EURUSD=X" "Forex" 0.003 0.003
    (add_output [msg_analisando "EURUSD=X" "Forex"] mundo_venda) =
  (Raise (Exception "unsupported operand"),
   snd (analisar_try (ta:=ta_falha_rsi) 1%positive "EURUSD=X" "Forex" 0.003 0.003
          (add_output [msg_analisando "EURUSD=X" "Forex"] mundo_venda))).
Proof. vm_compute. reflexivity. Defined.


(** The RSI fails after three columns were assigned: they stay in the
    frame, with all of its thirty rows. *)
Example ta_falha_rsi_frame :
  let w' := snd (analisar_ativo (ta:=ta_falha_rsi) (Some 1%positive) "EURUSD=X" "Forex"
                   0.003 0.003 mundo_venda) in
  nrows (deref w' 1%positive) = 30 /\
  dom (columns (deref w' 1%positive)) = {[ "Close"; "EMA9"; "EMA21"; "MACD" ]}.
Proof. split; [by vm_compute|]. by vm_compute. Qed.

(** X5: a call writes to the frame it is given and to no other: every
    other reference of the store holds after the call what it held before,
    and a call without a series changes no frame at all. *)
Theorem evaluator_writes_only_its_frame (ta : TaLib) df a m sd td w l' :
  df <> Some l' ->
  heap (snd (analisar_ativo df a m sd td w)) !! l' = heap w !! l'.
Proof.
  intros Hne.
  destruct (analisar_ativo_cases df a m sd td w)
    as (r & evs & w0 & -> & [->|(l & d & -> & ->)] & _); simpl; [done|].
  apply lookup_insert_ne. congruence.
Qed.

Lemma evaluator_writes_only_its_frame_witness :
  heap (snd (analisar_ativo (ta:=TaRef.lib) (Some 1%positive) "EURUSD=X" "Forex"
               0.003 0.003 mundo_copias)) !! 2%positive
  = heap mundo_copias !! 2%positive.
Proof.
  refine (evaluator_writes_only_its_frame TaRef.lib (Some 1%positive) _ _ _ _
            mundo_copias 2%positive _).
  discriminate.
Defined.

(** * The fetcher, further *)

(** X6: when the fetcher returns a series, it is a new object: its
    reference was not in the store, and every frame that was there is
    untouched.  The series is what one download gave, for 60 days with the
    timeframes 15m and 30m and for 2 years with any other, with the rows
    that miss a value dropped: no cell of it is missing. *)
Theorem fetched_frame_is_fresh_and_clean (yf : YFinance) ticker tf w l w' :
  obter_dados ticker tf w = (Ret (Some l), w') ->
  heap w !! l = None /\
  (forall l', l' <> l -> heap w' !! l' = heap w !! l') /\
  exists d,
    download ticker (if bool_decide (tf ∈ ["15m"; "30m"]) then "60d" else "2y") tf = Ret d /\
    empty d = false /\
    heap w' !! l = Some (dropna d) /\
    forall k c i, columns (dropna d) !! k = Some c -> i < nrows (dropna d) ->
                  notna c i = true.
Proof.
  intros H.
  destruct (download ticker (periodo tf) tf) as [d|e] eqn:Hd.
  2:{ by rewrite (obter_dados_raise _ _ _ _ Hd) in H. }
  pose proof (obter_dados_ret ticker tf w d Hd) as Heq. simpl in Heq.
  rewrite Heq in H. destruct (empty d) eqn:He; [done|].
  injection H as <- <-.
  split; [apply not_elem_of_dom, is_fresh|].
  split; [intros l' Hne; simpl; by apply lookup_insert_ne|].
  exists d. split; [done|]. split; [done|].
  split; [simpl; apply lookup_insert_eq|].
  intros k c i Hk Hi. apply notna_Some. by eapply dropna_cell.
Qed.

Lemma yf_venda_run :
  obter_dados (yf:=yf_venda) "EURUSD=X" "15m" mundo_venda =
  (Ret (Some 2%positive), snd (obter_dados (yf:=yf_venda) "EURUSD=X" "15m" mundo_venda)).
Proof. vm_compute. reflexivity. Defined.

Lemma fetched_frame_is_fresh_and_clean_witness :
  heap mundo_venda !! 2%positive = None /\
  (forall l', l' <> 2%positive ->
     heap (snd (obter_dados (yf:=yf_venda) "EURUSD=X" "15m" mundo_venda)) !! l'
     = heap mundo_venda !! l') /\
  exists d,
    download (YFinance:=yf_venda) "EURUSD=X"
      (if bool_decide ("15m" ∈ ["15m"; "30m"]) then "60d" else "2y") "15m" = Ret d /\
    empty d = false /\
    heap (snd (obter_dados (yf:=yf_venda) "EURUSD=X" "15m" mundo_venda)) !! 2%positive
      = Some (dropna d) /\
    forall k c i, columns (dropna d) !! k = Some c -> i < nrows (dropna d) ->
                  notna c i = true.
Proof.
  exact (fetched_frame_is_fresh_and_clean yf_venda _ _ _ _ _ yf_venda_run).
Defined.

(** X7: the fetcher tests for an empty frame before it drops the rows with
    a missing value.  A download with rows, all of them incomplete, is
    returned as a series of zero rows, not as no data; the evaluator then
    stops on it at the length guard. *)
Theorem incomplete_payload_is_an_empty_series (yf : YFinance) (ta : TaLib)
    ticker tf w d a m sd td :
  download ticker (periodo tf) tf = Ret d ->
  empty d = false ->
  (forall i, i < nrows d -> row_complete d i = false) ->
  exists l w',
    obter_dados ticker tf w = (Ret (Some l), w') /\
    heap w' !! l = Some (dropna d) /\
    nrows (dropna d) = 0 /\
    analisar_ativo (Some l) a m sd td w' =
      (Ret None, add_output [msg_analisando a m; msg_insuficientes a] w').
Proof.
  intros Hd He Hrows.
  pose proof (obter_dados_ret ticker tf w d Hd) as Heq. simpl in Heq.
  rewrite He in Heq. do 2 eexists. split; [exact Heq|].
  pose proof (dropna_all_missing d Hrows) as H0.
  split; [simpl; apply lookup_insert_eq|]. split; [done|].
  apply analisar_ativo_short. autorewrite with world. lia.
Qed.

Lemma incomplete_payload_is_an_empty_series_witness :
  exists l w',
    obter_dados (yf:=yf_incompleto) "AAPL" "1d" (mkWorld ∅ []) = (Ret (Some l), w') /\
    heap w' !! l = Some (dropna quadro_incompleto) /\
    nrows (dropna quadro_incompleto) = 0 /\
    analisar_ativo (ta:=TaRef.lib) (Some l) "AAPL" "Ações" 0.003 0.003 w' =
      (Ret None, add_output [msg_analisando "AAPL" "Ações"; msg_insuficientes "AAPL"] w').
Proof.
  refine (incomplete_payload_is_an_empty_series yf_incompleto TaRef.lib "AAPL" "1d"
            (mkWorld ∅ []) quadro_incompleto "AAPL" "Ações" 0.003 0.003 _ _ _).
  - reflexivity.
  - reflexivity.
  - intros i Hi. change (nrows quadro_incompleto) with 2 in Hi.
    destruct i as [|[|i]]; [by vm_compute..|lia].
Defined.

(** * The cycle *)

Lemma frames_kept_refl w : frames_kept w w.
Proof. by intros l d. Qed.

Lemma frames_kept_trans w1 w2 w3 :
  frames_kept w1 w2 -> frames_kept w2 w3 -> frames_kept w1 w3.
Proof. intros H1 H2 l d Hl. by apply H2, H1. Qed.

Lemma frames_kept_add_output w w' evs :
  frames_kept w w' -> frames_kept w (add_output evs w').
Proof. done. Qed.

Lemma frames_kept_new_frame w l d :
  heap w !! l = None -> frames_kept w (set_frame l d w).
Proof.
  intros Hl l' d' Hl'. unfold set_frame. simpl.
  rewrite lookup_insert_ne; [done|]. congruence.
Qed.

Lemma cycle_step_refl w : cycle_step w w [].
Proof.
  exists []. split; [by rewrite app_nil_r|]. split; [apply frames_kept_refl|]. done.
Qed.

Lemma cycle_step_trans w1 w2 w3 f1 f2 :
  cycle_step w1 w2 f1 -> cycle_step w2 w3 f2 -> cycle_step w1 w3 (f1 ++ f2).
Proof.
  intros (e1 & Ho1 & Hk1 & Hf1 & Hn1) (e2 & Ho2 & Hk2 & Hf2 & Hn2).
  exists (e1 ++ e2). split; [by rewrite Ho2, Ho1, app_assoc|].
  split; [by eapply frames_kept_trans|].
  rewrite !List.filter_app, !length_app. split; [by rewrite Hf1, Hf2|lia].
Qed.

(** Lines of the log that are neither a fetch nor a signal line. *)
Lemma cycle_step_logs w evs :
  Forall (fun ev => is_plain_log ev = true) evs -> cycle_step w (add_output evs w) [].
Proof.
  intros (H1 & H2 & H3)%plain_logs_no_notification.
  exists evs. split; [done|]. split; [apply frames_kept_add_output, frames_kept_refl|].
  by rewrite H1, H2, H3.
Qed.

Lemma for_each_step {A} (body : A -> M unit) (g : A -> list event) :
  (forall x w, exists w', body x w = (Ret tt, w') /\ cycle_step w w' (g x)) ->
  forall xs w,
    exists w', for_each xs body w = (Ret tt, w') /\ cycle_step w w' (concat (g <$> xs)).
Proof.
  intros Hbody xs. induction xs as [|x xs IH]; intros w.
  - exists w. split; [done|]. apply cycle_step_refl.
  - destruct (Hbody x w) as (w1 & Hx & Hs1).
    destruct (IH w1) as (w2 & Hxs & Hs2).
    exists w2. simpl. munfold. rewrite Hx. split; [done|].
    by eapply cycle_step_trans.
Qed.

Arguments for_each : simpl never.

Section CycleFacts.
Context {yf : YFinance} {ta : TaLib}.
Variables (tf : string) (sd td : float) (str_dict : Signal -> string).

(** One instrument: the fetch is opened once, the frames that were there
    are kept, and a signal line is written exactly when the notifier was
    called. *)
Lemma processar_ativo_step mercado ticker w :
  exists w',
    processar_ativo str_dict tf sd td mercado ticker w = (Ret tt, w') /\
    cycle_step w w' [fetch_line tf ticker].
Proof.
  unfold processar_ativo, sleep. munfold.
  destruct (download ticker (periodo tf) tf) as [d|e] eqn:Hd.
  2:{ rewrite (obter_dados_raise _ _ _ _ Hd). simpl. eexists. split; [done|].
      eexists. split; [done|]. split; [apply frames_kept_add_output, frames_kept_refl|]. done. }
  pose proof (obter_dados_ret ticker tf w d Hd) as Heq. simpl in Heq.
  set (l := fresh (dom (heap w))) in *.
  assert (heap w !! l = None) as Hl by apply not_elem_of_dom, is_fresh.
  rewrite Heq. destruct (empty d).
  { simpl. eexists. split; [done|]. eexists. split; [done|].
    split; [by apply frames_kept_add_output, frames_kept_new_frame|]. done. }
  simpl.
  match goal with
  | |- context [analisar_ativo (Some l) ?a ?m ?s ?t ?w1] =>
      destruct (analisar_ativo_cases (Some l) a m s t w1)
        as (r & evs & w0 & -> & Hw0 & Hcase)
  end.
  assert (exists d', w0 = add_output [fetch_line tf ticker] (set_frame l d' w))
    as [d' ->].
  { destruct Hw0 as [->|(l0 & d0 & [= <-] & ->)]; [by eexists|].
    autorewrite with world. by eexists. }
  autorewrite with world.
  destruct Hcase as [[-> Hlogs]|(sig & -> & ->)]; simpl.
  - eexists. split; [done|].
    apply plain_logs_no_notification in Hlogs as (H1 & H2 & H3).
    exists (fetch_line tf ticker :: evs). split; [done|].
    split; [by apply frames_kept_add_output, frames_kept_new_frame|].
    simpl. by rewrite H1, H2, H3.
  - autorewrite with world. eexists. split; [done|].
    eexists. split; [done|].
    split; [by apply frames_kept_add_output, frames_kept_new_frame|]. done.
Qed.

Lemma concat_singletons {A B} (f : A -> B) (xs : list A) :
  concat ((fun x => [f x]) <$> xs) = f <$> xs.
Proof. induction xs as [|x xs IH]; [done|]. simpl. f_equal. exact IH. Qed.

Lemma concat_fmap_fmap {A B} (f : A -> B) (xss : list (list A)) :
  concat ((fun xs : list A => f <$> xs) <$> xss) = f <$> concat xss.
Proof.
  induction xss as [|xs xss IH]; [done|].
  by rewrite fmap_cons, !concat_cons, fmap_app, IH.
Qed.

(** One market: its heading, then its instruments in order. *)
Lemma mercado_step mercado lista w :
  exists w',
    (logger_info ("Analisando mercado: " +:+ mercado);;
     for_each lista (processar_ativo str_dict tf sd td mercado)) w = (Ret tt, w') /\
    cycle_step w w' (fetch_line tf <$> lista).
Proof.
  destruct (for_each_step (processar_ativo str_dict tf sd td mercado)
              (fun t => [fetch_line tf t])
              (processar_ativo_step mercado) lista
              (add_output [Log INFO ("Analisando mercado: " +:+ mercado)] w))
    as (w2 & Hin & Hs).
  exists w2. split; [exact Hin|].
  rewrite concat_singletons in Hs.
  change (fetch_line tf <$> lista) with ([] ++ (fetch_line tf <$> lista)).
  eapply cycle_step_trans; [|exact Hs].
  apply cycle_step_logs. by repeat constructor.
Qed.

(** The whole cycle, between its first and its last line. *)
Lemma run_analysis_step w :
  exists w',
    run_analysis tf sd td str_dict w =
      (Ret tt, add_output [Log INFO "Ciclo de análise concluído."] w') /\
    cycle_step (add_output [Log INFO "Iniciando ciclo de análise..."] w) w'
      (fetch_line tf <$> concat (snd <$> ativos)).
Proof.
  set (w0 := add_output [Log INFO "Iniciando ciclo de análise..."] w).
  unfold run_analysis. unfold mbind at 1 2, M_bind, bind at 1 2.
  unfold logger_info at 1, emit. fold w0.
  match goal with
  | |- context [for_each ativos ?F w0] =>
      destruct (for_each_step F (fun p => fetch_line tf <$> p.2)) with (xs := ativos) (w := w0)
        as (w' & Hrun & Hstep);
        [intros [mercado lista] w1; apply mercado_step|]
  end.
  exists w'. rewrite Hrun. split; [reflexivity|].
  rewrite <- concat_fmap_fmap, <- list_fmap_compose. exact Hstep.
Qed.
End CycleFacts.

(** The tickers of the catalog, in its order. *)
Lemma ativos_tickers :
  concat (snd <$> ativos) =
    ["EURUSD=X"; "GBPUSD=X"; "USDJPY=X"; "AUDUSD=X"; "USDCAD=X";
     "BTC-USD"; "ETH-USD"; "SOL-USD"; "BNB-USD";
     "AAPL"; "MSFT"; "AMZN"; "PETR4.SA"; "VALE3.SA";
     "GC=F"; "CL=F"; "SI=F"].
Proof. reflexivity. Qed.

Lemma run_analysis_events (yf : YFinance) (ta : TaLib) tf sd td str_dict w :
  exists w' evs,
    run_analysis tf sd td str_dict w = (Ret tt, w') /\
    output w' = output w ++
      Log INFO "Iniciando ciclo de análise..." :: evs
        ++ [Log INFO "Ciclo de análise concluído."] /\
    frames_kept w w' /\
    List.filter is_fetch_line evs = fetch_line tf <$> concat (snd <$> ativos) /\
    length (List.filter is_notification evs) = length (List.filter is_signal_line evs).
Proof.
  destruct (run_analysis_step tf sd td str_dict w)
    as (w' & Hrun & evs & Hout & Hkept & Hfetch & Hcount).
  exists (add_output [Log INFO "Ciclo de análise concluído."] w'), evs.
  split; [done|]. split.
  - rewrite output_add_output, Hout, output_add_output.
    by rewrite <- !app_assoc.
  - split; [|done]. apply frames_kept_add_output.
    intros l d Hl. apply Hkept. by rewrite heap_add_output.
Qed.

(** X8: a cycle never raises, whatever the downloads and the indicator
    library do for any instrument: it returns, and its output is the
    opening line, what the instruments wrote, and the closing line. *)
Theorem cycle_never_raises (yf : YFinance) (ta : TaLib) tf sd td str_dict w :
  exists w' evs,
    run_analysis tf sd td str_dict w = (Ret tt, w') /\
    output w' = output w ++
      [Log INFO "Iniciando ciclo de análise..."] ++ evs
        ++ [Log INFO "Ciclo de análise concluído."].
Proof.
  destruct (run_analysis_events yf ta tf sd td str_dict w)
    as (w' & evs & Hrun & Hout & _).
  by exists w', evs.
Qed.

(** X9: a cycle keeps every frame that was in the store before it: each
    instrument is evaluated on a frame of its own, fetched for it, and the
    in-place changes of the evaluator reach no other frame. *)
Theorem cycle_keeps_existing_frames (yf : YFinance) (ta : TaLib) tf sd td str_dict w l d :
  heap w !! l = Some d ->
  heap (snd (run_analysis tf sd td str_dict w)) !! l = Some d.
Proof.
  intros Hl.
  destruct (run_analysis_events yf ta tf sd td str_dict w)
    as (w' & evs & -> & _ & Hkept & _).
  by apply Hkept.
Qed.

Lemma cycle_keeps_existing_frames_witness :
  heap (snd (run_analysis (yf:=yf_venda) (ta:=TaRef.lib) "15m" 0.003 0.003
               (fun _ => "{}") mundo_venda)) !! 1%positive = Some quadro_venda.
Proof.
  refine (cycle_keeps_existing_frames yf_venda TaRef.lib "15m" 0.003 0.003
            (fun _ => "{}") mundo_venda 1%positive quadro_venda _).
  reflexivity.
Defined.

(** X10: in a cycle every instrument of the catalog is fetched exactly
    once, in the order of the catalog, with the timeframe of the cycle; a
    failure on one instrument skips none of the others. *)
Theorem cycle_fetches_every_instrument_once (yf : YFinance) (ta : TaLib)
    tf sd td str_dict w :
  exists evs,
    output (snd (run_analysis tf sd td str_dict w)) = output w ++ evs /\
    List.filter is_fetch_line evs =
      (fun ticker =>
         Log INFO ("Obtendo dados para " +:+ ticker +:+ " com timeframe " +:+ tf)) <$>
      ["EURUSD=X"; "GBPUSD=X"; "USDJPY=X"; "AUDUSD=X"; "USDCAD=X";
       "BTC-USD"; "ETH-USD"; "SOL-USD"; "BNB-USD";
       "AAPL"; "MSFT"; "AMZN"; "PETR4.SA"; "VALE3.SA";
       "GC=F"; "CL=F"; "SI=F"].
Proof.
  destruct (run_analysis_events yf ta tf sd td str_dict w)
    as (w' & evs & -> & Hout & _ & Hfetch & _).
  eexists. split; [exact Hout|].
  rewrite ativos_tickers in Hfetch.
  change (List.filter is_fetch_line
            (Log INFO "Iniciando ciclo de análise..." :: evs
               ++ [Log INFO "Ciclo de análise concluído."]))
    with (List.filter is_fetch_line
            (evs ++ [Log INFO "Ciclo de análise concluído."])).
  rewrite List.filter_app, Hfetch. apply app_nil_r.
Qed.


(** A cycle in which every download gives the thirty bars of
    [quadro_venda]: seventeen fetches, seventeen notifications and
    seventeen signal lines. *)
Example cycle_all_sell :
  let evs := output (snd (run_analysis (yf:=yf_venda) (ta:=TaRef.lib) "15m" 0.003 0.003
                            (fun _ => "{}") (mkWorld ∅ []))) in
  length (List.filter is_fetch_line evs) = 17 /\
  length (List.filter is_notification evs) = 17 /\
  length (List.filter is_signal_line evs) = 17.
Proof. vm_compute. done. Qed.

(** * The row a signal is read from *)

Lemma SFcompare_antisym x y c :
  SFcompare x y = Some c -> SFcompare y x = Some (CompOpp c).
Proof.
  destruct x as [s1|s1| |s1 m1 e1], y as [s2|s2| |s2 m2 e2]; simpl;
    try discriminate;
    try (destruct s1, s2; intros [= <-]; reflexivity);
    try (destruct s1; intros [= <-]; reflexivity);
    try (destruct s2; intros [= <-]; reflexivity).
  change (Pos.compare_cont Eq m2 m1) with (m2 ?= m1)%positive.
  change (Pos.compare_cont Eq m1 m2) with (m1 ?= m2)%positive.
  rewrite (Z.compare_antisym e2 e1), (Pos.compare_antisym m2 m1).
  destruct s1, s2; intros [= <-]; try reflexivity;
    destruct (e2 ?= e1)%Z; simpl; try reflexivity;
    destruct (m2 ?= m1)%positive; reflexivity.
Qed.

(** [x <= y] excludes [y < x], and [x == y] excludes [x < y]. *)
Lemma leb_not_ltb x y : PrimFloat.leb x y = true -> PrimFloat.ltb y x = false.
Proof.
  rewrite FloatAxioms.leb_spec, FloatAxioms.ltb_spec. unfold SFleb, SFltb.
  destruct (SFcompare (Prim2SF x) (Prim2SF y)) as [c|] eqn:E; [|discriminate].
  rewrite (SFcompare_antisym _ _ _ E). destruct c; simpl; congruence.
Qed.

Lemma eqb_not_ltb x y :
  PrimFloat.eqb x y = true -> PrimFloat.ltb x y = false /\ PrimFloat.ltb y x = false.
Proof.
  rewrite FloatAxioms.eqb_spec, !FloatAxioms.ltb_spec. unfold SFeqb, SFltb.
  destruct (SFcompare (Prim2SF x) (Prim2SF y)) as [c|] eqn:E; [|discriminate].
  rewrite (SFcompare_antisym _ _ _ E). destruct c; simpl; try discriminate. done.
Qed.

Lemma last_filter_seq (f : nat -> bool) n i :
  last (List.filter f (seq 0 n)) = Some i ->
  f i = true /\ i < n /\ forall j, i < j < n -> f j = false.
Proof.
  induction n as [|n IH]; [done|].
  rewrite seq_S, List.filter_app. simpl. destruct (f n) eqn:Hn.
  - rewrite last_snoc. intros [= <-]. repeat split; [done|lia|]. intros j ?. lia.
  - rewrite app_nil_r. intros (Hi & Hlt & Hafter)%IH. repeat split; [done|lia|].
    intros j Hj. destruct (decide (j = n)) as [->|Hne]; [done|]. apply Hafter. lia.
Qed.

(** The last row after [dropna] is the last row of the frame that misses
    no value. *)
Lemma iloc_last_dropna_row df row :
  iloc_last (dropna df) = Ret row ->
  exists i,
    i < nrows df /\ row_complete df i = true /\
    (forall j, i < j < nrows df -> row_complete df j = false) /\
    forall k c, columns df !! k = Some c -> row !! k = c !! i.
Proof.
  unfold iloc_last. destruct (nrows (dropna df)) as [|n] eqn:En; [done|].
  intros [= <-]. rewrite dropna_nrows in En.
  destruct (kept df !! n) as [i|] eqn:Hi.
  2:{ apply lookup_ge_None in Hi. lia. }
  assert (last (kept df) = Some i) as Hlast by (by rewrite last_lookup, En).
  apply last_filter_seq in Hlast as (Hc & Hlt & Hafter).
  exists i. repeat split; [done..|].
  intros k c Hk. rewrite lookup_omap, lookup_fmap, Hk. simpl.
  rewrite select_lookup by (by eapply kept_present). by rewrite Hi.
Qed.

(** X12: a signal is returned only on the rule of the decision: a Buy only
    with the last row's close above its EMA9 and its RSI below 30, a Sell
    only with the close below the EMA9 and the RSI above 70.  So no signal
    comes from a last row whose close equals its EMA9 or whose RSI lies
    within 30 and 70, bounds included. *)
Theorem signal_only_outside_the_band (ta : TaLib) df a m sd td w sig w' :
  analisar_ativo df a m sd td w = (Ret (Some sig), w') ->
  exists l row ema9 rsi,
    df = Some l /\
    iloc_last (deref w' l) = Ret row /\
    row !! "Close" = Some (preco_entrada sig) /\
    row !! "EMA9" = Some ema9 /\ row !! "RSI" = Some rsi /\
    PrimFloat.eqb (preco_entrada sig) ema9 = false /\
    PrimFloat.leb 30 rsi && PrimFloat.leb rsi 70 = false /\
    match sinal sig with
    | Compra => PrimFloat.ltb ema9 (preco_entrada sig) = true /\ PrimFloat.ltb rsi 30 = true
    | Venda => PrimFloat.ltb (preco_entrada sig) ema9 = true /\ PrimFloat.ltb 70 rsi = true
    | Neutro => False
    end.
Proof.
  intros H. apply analisar_ativo_Some_inv in H
    as (l & df' & row & c & e & r & -> & _ & _ & _ & Hrow & Hclose & Hema & Hrsi
        & Hdir & -> & ->).
  exists l, row, e, r. autorewrite with world. repeat (split; [done|]). simpl.
  unfold direcao in *.
  destruct (PrimFloat.eqb c e) eqn:Heq.
  { apply eqb_not_ltb in Heq as [H1 H2]. by rewrite H1, H2 in Hdir. }
  destruct (PrimFloat.leb 30 r) eqn:Hlo; simpl.
  - apply leb_not_ltb in Hlo. rewrite Hlo, andb_false_r in *.
    destruct (PrimFloat.leb r 70) eqn:Hhi.
    + apply leb_not_ltb in Hhi. by rewrite Hhi, andb_false_r in Hdir.
    + destruct (PrimFloat.ltb c e), (PrimFloat.ltb 70 r); simpl in *; done.
  - destruct (PrimFloat.ltb e c), (PrimFloat.ltb r 30); simpl in *; try done;
      destruct (PrimFloat.ltb c e), (PrimFloat.ltb 70 r); simpl in *; done.
Qed.

Lemma signal_only_outside_the_band_witness :
  exists l row ema9 rsi,
    Some 1%positive = Some l /\
    iloc_last (deref (snd (analisar_ativo (ta:=TaRef.lib) (Some 1%positive)
                             "EURUSD=X" "Forex" 0.003 0.003 mundo_venda)) l) = Ret row /\
    row !! "Close" = Some 123.75%float /\
    row !! "EMA9" = Some ema9 /\ row !! "RSI" = Some rsi /\
    PrimFloat.eqb 123.75 ema9 = false /\
    PrimFloat.leb 30 rsi && PrimFloat.leb rsi 70 = false /\
    PrimFloat.ltb 123.75 ema9 = true /\ PrimFloat.ltb 70 rsi = true.
Proof.
  exact (signal_only_outside_the_band TaRef.lib _ _ _ _ _ _ _ _ mundo_venda_run).
Defined.

(** The indicator block leaves the close column as it was. *)
Lemma computed_close (ta : TaLib) df df' :
  computed df df' ->
  exists close, columns df !! "Close" = Some close /\ columns df' !! "Close" = Some close.
Proof.
  intros (close & e9 & e21 & mm & rr & bh & bl & Hget & _ & _ & _ & _ & _ & ->).
  unfold getitem in Hget.
  destruct (columns df !! "Close") as [cl|] eqn:Hcl; [|done].
  injection Hget as ->. exists close. split; [done|].
  unfold with_indicators. by rewrite !setitem_lookup_ne.
Qed.

(** X13: the entry of a signal is the close of the last bar of the series
    that has a value in every column once the indicators are set; bars
    after it that miss a value are passed over, so the signal can rest on a
    bar that is not the latest. *)
Theorem signal_from_last_complete_bar (ta : TaLib) df a m sd td w sig w' :
  analisar_ativo df a m sd td w = (Ret (Some sig), w') ->
  exists l df' i close,
    df = Some l /\
    computed (deref w l) df' /\
    i < nrows (deref w l) /\
    row_complete df' i = true /\
    (forall j, i < j < nrows (deref w l) -> row_complete df' j = false) /\
    columns (deref w l) !! "Close" = Some close /\
    close !! i = Some (preco_entrada sig).
Proof.
  intros H. apply analisar_ativo_Some_inv in H
    as (l & df' & row & c & e & r & -> & _ & Hc & _ & Hrow & Hclose & _ & _ & _ & -> & _).
  apply iloc_last_dropna_row in Hrow as (i & Hi & Hcomplete & Hafter & Hcells).
  rewrite (computed_nrows _ _ Hc) in Hi, Hafter.
  destruct (computed_close _ _ _ Hc) as (close & Hcl & Hcl').
  exists l, df', i, close. repeat (split; [done|]). simpl.
  rewrite <- Hclose. symmetry. by apply Hcells.
Qed.

Lemma signal_from_last_complete_bar_witness :
  exists l df' i close,
    Some 1%positive = Some l /\
    computed (ta:=TaRef.lib) (deref mundo_venda l) df' /\
    i < nrows (deref mundo_venda l) /\
    row_complete df' i = true /\
    (forall j, i < j < nrows (deref mundo_venda l) -> row_complete df' j = false) /\
    columns (deref mundo_venda l) !! "Close" = Some close /\
    close !! i = Some (preco_entrada sinal_venda).
Proof.
  exact (signal_from_last_complete_bar TaRef.lib _ _ _ _ _ _ _ _ mundo_venda_run).
Defined.

(** The latest bar has no close: the Sell signal is read from the bar
    before it. *)
Example signal_from_bar_before_last :
  fst (analisar_ativo (ta:=TaRef.lib) (Some 1%positive) "EURUSD=X" "Forex" 0.003 0.003
         (mkWorld {[ 1%positive := quadro_venda_nan ]} []))
  = Ret (Some sinal_venda).
Proof. vm_compute. reflexivity. Qed.

(** * Indicator columns that were already there *)

Section Stale.
Context {ta : TaLib}.

Lemma with_indicators_overwrites df k s0 e9 e21 m r bh bl :
  k ∈ indicator_columns ->
  with_indicators (setitem df k s0) e9 e21 m r bh bl = with_indicators df e9 e21 m r bh bl.
Proof.
  intros Hk. unfold with_indicators, setitem. simpl. f_equal.
  apply map_eq. intros j.
  unfold indicator_columns in Hk.
  repeat (apply elem_of_cons in Hk as [->|Hk]);
    [..|by apply elem_of_nil in Hk];
    rewrite !lookup_insert; repeat case_decide; congruence.
Qed.

Lemma computed_setitem df k s0 df' :
  k ∈ indicator_columns ->
  computed (setitem df k s0) df' <-> computed df df'.
Proof.
  intros Hk.
  assert (getitem (setitem df k s0) "Close" = getitem df "Close") as Hget.
  { apply getitem_setitem_ne. intros <-. unfold indicator_columns in Hk.
    repeat (apply elem_of_cons in Hk as [[=]|Hk]). by apply elem_of_nil in Hk. }
  split; intros (close & e9 & e21 & m & r & bh & bl & Hc & H1 & H2 & H3 & H4 & H5 & ->);
    exists close, e9, e21, m, r, bh, bl; repeat (split; [congruence|]);
    by rewrite with_indicators_overwrites.
Qed.

(** The result of a call is a function of the row count of the frame and
    of what the indicator block makes of it. *)
Lemma analisar_ativo_result_by_computed l l' w w' a m sd td :
  nrows (deref w l) = nrows (deref w' l') ->
  (forall df', computed (deref w l) df' <-> computed (deref w' l') df') ->
  fst (analisar_ativo (Some l) a m sd td w) = fst (analisar_ativo (Some l') a m sd td w').
Proof.
  intros Hrows Hiff.
  destruct (Nat.lt_ge_cases (nrows (deref w l)) 21) as [Hn|Hn].
  { rewrite !analisar_ativo_short; [done|by rewrite <- Hrows|done]. }
  rewrite !analisar_ativo_long by (by rewrite <- ?Hrows).
  set (w0 := add_output [msg_analisando a m] w).
  set (w0' := add_output [msg_analisando a m] w').
  assert (forall df', computed (deref w0 l) df' ->
            fst (let (r, w2) := analisar_try l a m sd td w0 in
                 match r with Ret r => (Ret r, w2)
                 | Raise e => (Ret None, add_output [msg_erro a e] w2) end) =
            fst (let (r, w2) := analisar_try l' a m sd td w0' in
                 match r with Ret r => (Ret r, w2)
                 | Raise e => (Ret None, add_output [msg_erro a e] w2) end))
    as Hcomputed.
  { intros df' Hc.
    assert (computed (deref w0' l') df') as Hc' by (by apply Hiff).
    destruct (decide (nrows (dropna df') = 0)) as [H0|H0].
    - by rewrite (analisar_try_empty _ _ _ _ _ _ _ Hc H0),
        (analisar_try_empty _ _ _ _ _ _ _ Hc' H0).
    - destruct (analisar_try_last _ _ _ a m sd td Hc H0)
        as (row & c & e & r & Hrow & Hclose & Hema & Hrsi & ->).
      destruct (analisar_try_last _ _ _ a m sd td Hc' H0)
        as (row' & c' & e' & r' & Hrow' & Hclose' & Hema' & Hrsi' & ->).
      rewrite Hrow in Hrow'. injection Hrow' as <-.
      assert (c' = c) as -> by congruence.
      assert (e' = e) as -> by congruence.
      assert (r' = r) as -> by congruence.
      by destruct (direcao c e r). }
  destruct (calcular_indicadores l w0) as [[[]|e1] w1] eqn:H1.
  { apply calcular_indicadores_inv in H1 as (df' & Hc & _). by apply (Hcomputed df'). }
  destruct (calcular_indicadores l' w0') as [[[]|e2] w2] eqn:H2.
  { apply calcular_indicadores_inv in H2 as (df' & Hc & _).
    apply (Hcomputed df'). by apply Hiff. }
  by rewrite (analisar_try_raise _ _ _ _ _ _ _ _ H1),
    (analisar_try_raise _ _ _ _ _ _ _ _ H2).
Qed.
End Stale.

(** X14: the evaluator computes the indicators from the close column and
    reads no indicator column the frame may already have: a frame that
    comes with a column of one of the six indicator names, whatever it
    holds, gives the same result as the frame without it, and, with at
    least 21 rows and the indicators computed, the call leaves the same
    frame. *)
Theorem stale_indicator_column_is_overwritten (ta : TaLib) w1 w2 l k s0 a m sd td :
  k ∈ indicator_columns ->
  deref w2 l = setitem (deref w1 l) k s0 ->
  fst (analisar_ativo (Some l) a m sd td w2) = fst (analisar_ativo (Some l) a m sd td w1) /\
  forall df', 21 <= nrows (deref w1 l) -> computed (deref w1 l) df' ->
    deref (snd (analisar_ativo (Some l) a m sd td w2)) l
    = deref (snd (analisar_ativo (Some l) a m sd td w1)) l.
Proof.
  intros Hk Heq. split.
  - apply analisar_ativo_result_by_computed.
    + by rewrite Heq.
    + intros df'. rewrite Heq. by apply computed_setitem.
  - intros df' Hn Hc.
    assert (computed (deref w2 l) df') as Hc2 by (rewrite Heq; by apply computed_setitem).
    destruct (analisar_ativo_frame l w1 df' a m sd td) as (r1 & evs1 & ->); [done..|].
    destruct (analisar_ativo_frame l w2 df' a m sd td) as (r2 & evs2 & ->);
      [by rewrite Heq|done|].
    simpl. by autorewrite with world.
Qed.

Lemma stale_indicator_column_is_overwritten_witness :
  fst (analisar_ativo (ta:=TaRef.lib) (Some 1%positive) "EURUSD=X" "Forex" 0.003 0.003
         (mkWorld {[ 1%positive := setitem quadro_venda "RSI" (replicate 30 0%float) ]} []))
  = fst (analisar_ativo (ta:=TaRef.lib) (Some 1%positive) "EURUSD=X" "Forex" 0.003 0.003
           mundo_venda) /\
  forall df', 21 <= nrows (deref mundo_venda 1%positive) ->
    computed (ta:=TaRef.lib) (deref mundo_venda 1%positive) df' ->
    deref (snd (analisar_ativo (ta:=TaRef.lib) (Some 1%positive) "EURUSD=X" "Forex"
                  0.003 0.003
                  (mkWorld {[ 1%positive := setitem quadro_venda "RSI"
                                              (replicate 30 0%float) ]} []))) 1%positive
    = deref (snd (analisar_ativo (ta:=TaRef.lib) (Some 1%positive) "EURUSD=X" "Forex"
                    0.003 0.003 mundo_venda)) 1%positive.
Proof.
  refine (stale_indicator_column_is_overwritten TaRef.lib mundo_venda
            (mkWorld {[ 1%positive := setitem quadro_venda "RSI" (replicate 30 0%float) ]} [])
            1%positive "RSI" (replicate 30 0%float) _ _ _ _ _ _).
  - unfold indicator_columns. in_cols.
  - reflexivity.
Defined.
